(** * headlessui-float (React): the Float root and its Arrow

    A shallow embedding of [packages/headlessui-float-react/src/float.tsx]:
    the middleware pipeline assembled by [FloatRoot], the show/hide and
    auto-update life cycle kept in the two module-level maps, the callbacks
    handed to the transition primitive, and the style computed by [Arrow].

    JavaScript values are an inductive type with [typeof] and truthiness
    written out, with integers for the numbers among them; the coordinates
    and the offset of the arrow are numbers of any kind, behind an
    interface that prints them.  The module-level [Map]s are
    [gmap]s, the mutable array of the pipeline is a list that grows at its
    end, and the effect that touches the maps and calls the callbacks is a
    small state monad that also logs what it does, in order. *)

From Stdlib Require Import ZArith Ascii String List Bool Lia.
From stdpp Require Import base option list strings gmap pretty.

Local Open Scope string_scope.
Local Open Scope Z_scope.
Local Open Scope list_scope.

(** ** JavaScript values *)

Module Js.

#[warnings="-register-all"] Inductive Value : Type :=
  | VUndefined
  | VNull
  | VBool (b : bool)
  | VNum (n : Z)
  | VStr (s : string)
  | VObj (fields : list (string * Value))
  | VFun (name : string)
  | VRef (name : string).

(** The [typeof] operator; a ref object is an object, and so is [null]. *)
Definition typeof (v : Value) : string :=
  match v with
  | VUndefined => "undefined"
  | VNull => "object"
  | VBool _ => "boolean"
  | VNum _ => "number"
  | VStr _ => "string"
  | VObj _ => "object"
  | VFun _ => "function"
  | VRef _ => "object"
  end.

(** [ToBoolean]. *)
Definition truthy (v : Value) : bool :=
  match v with
  | VUndefined | VNull => false
  | VBool b => b
  | VNum n => negb (n =? 0)
  | VStr s => negb (String.eqb s EmptyString)
  | VObj _ | VFun _ | VRef _ => true
  end.

(** [typeof v === t] *)
Definition typeof_is (v : Value) (t : string) : bool := String.eqb (typeof v) t.

(** [v === true] *)
Definition is_true (v : Value) : bool :=
  match v with VBool true => true | _ => false end.

(** [v === false] *)
Definition is_false (v : Value) : bool :=
  match v with VBool false => true | _ => false end.

(** Object literals keep their keys in insertion order; writing a key that
    is already there replaces its value in place. *)
Fixpoint obj_set (k : string) (v : Value) (o : list (string * Value))
  : list (string * Value) :=
  match o with
  | [] => [(k, v)]
  | (k', v') :: o' =>
      if String.eqb k k' then (k, v) :: o' else (k', v') :: obj_set k v o'
  end.

(** [{...base, ...src}] *)
Definition obj_spread (base src : list (string * Value)) : list (string * Value) :=
  fold_left (fun acc kv => obj_set kv.1 kv.2 acc) src base.

(** The own properties that [...v] copies: those of an object, none of
    anything else that the code spreads. *)
Definition spread_fields (v : Value) : list (string * Value) :=
  match v with VObj o => o | _ => [] end.

End Js.

Import Js.

(** A call returns normally or throws an [Error] with a message. *)
Inductive Outcome (A : Type) : Type :=
  | Normal (a : A)
  | Thrown (msg : string).
Arguments Normal {A} a.
Arguments Thrown {A} msg.

(** ** The positioning engine's middleware constructors

    [offset], [flip], [shift], [autoPlacement], [arrow] and [hide] are
    imported from the positioning engine.  Each returns a middleware object
    carrying its name and the options it was called with. *)

Record Middleware : Type := { name : string; options : Value }.

Module FloatingUI.
Definition offset (o : Value) : Middleware := {| name := "offset"; options := o |}.
Definition flip (o : Value) : Middleware := {| name := "flip"; options := o |}.
Definition shift (o : Value) : Middleware := {| name := "shift"; options := o |}.
Definition autoPlacement (o : Value) : Middleware :=
  {| name := "autoPlacement"; options := o |}.
Definition arrow (o : Value) : Middleware := {| name := "arrow"; options := o |}.
Definition hide (o : Value) : Middleware := {| name := "hide"; options := o |}.
End FloatingUI.

(** ** Props and refs of [FloatRoot] *)

(** A DOM element (or a virtual element) is a handle. *)
Definition Element : Type := nat.

(** [refs.reference.current] and [refs.floating.current]. *)
Record Refs : Type := {
  reference_current : option Element;
  floating_current : option Element;
}.

(** [props.middleware]: absent, an array, or a function of the refs. *)
Inductive MiddlewareProp : Type :=
  | MwUndefined
  | MwArray (l : list Middleware)
  | MwFunction (f : Refs → list Middleware).

(** The fields of [FloatProps] that the modelled code reads. *)
Record FloatProps : Type := {
  props_show : option bool;
  props_offset : Value;
  props_shift : Value;
  props_flip : Value;
  props_arrow : Value;
  props_autoPlacement : Value;
  props_hide : Value;
  props_autoUpdate : Value;
  props_middleware : MiddlewareProp;
}.

(** ** The middleware pipeline (the effect of lines 116-177) *)

Module Pipeline.

(** [_middleware.push(m)] and [_middleware.push(...ms)] *)
Definition push (m : Middleware) (arr : list Middleware) : list Middleware :=
  arr ++ [m].
Definition push_all (ms : list Middleware) (arr : list Middleware) : list Middleware :=
  arr ++ ms.

(** The six guards, as written. *)
Definition offset_guard (props : FloatProps) : bool :=
  typeof_is (props_offset props) "number"
  || typeof_is (props_offset props) "object"
  || typeof_is (props_offset props) "function".

Definition flip_guard (props : FloatProps) : bool :=
  is_true (props_flip props)
  || typeof_is (props_flip props) "number"
  || typeof_is (props_flip props) "object".

Definition shift_guard (props : FloatProps) : bool :=
  is_true (props_shift props)
  || typeof_is (props_shift props) "number"
  || typeof_is (props_shift props) "object".

Definition autoPlacement_guard (props : FloatProps) : bool :=
  is_true (props_autoPlacement props)
  || typeof_is (props_autoPlacement props) "object".

Definition arrow_guard (props : FloatProps) : bool :=
  is_true (props_arrow props) || typeof_is (props_arrow props) "number".

Definition hide_guard (props : FloatProps) : bool :=
  is_true (props_hide props) || typeof_is (props_hide props) "object".

(** The arguments of the six constructor calls, as written. *)
Definition padding_options (v : Value) : Value :=
  VObj (obj_spread
          [("padding", if typeof_is v "number" then v else VUndefined)]
          (if typeof_is v "object" then spread_fields v else [])).

Definition object_or_undefined (v : Value) : Value :=
  if typeof_is v "object" then v else VUndefined.

Definition arrow_options (v : Value) : Value :=
  VObj [("element", VRef "arrowRef");
        ("padding", if is_true v then VNum 0 else v)].

Definition offset_entry (props : FloatProps) : Middleware :=
  FloatingUI.offset (props_offset props).
Definition flip_entry (props : FloatProps) : Middleware :=
  FloatingUI.flip (padding_options (props_flip props)).
Definition shift_entry (props : FloatProps) : Middleware :=
  FloatingUI.shift (padding_options (props_shift props)).
Definition autoPlacement_entry (props : FloatProps) : Middleware :=
  FloatingUI.autoPlacement (object_or_undefined (props_autoPlacement props)).
Definition arrow_entry (props : FloatProps) : Middleware :=
  FloatingUI.arrow (arrow_options (props_arrow props)).
Definition hide_entry (props : FloatProps) : Middleware :=
  FloatingUI.hide (object_or_undefined (props_hide props)).

(** The user's middleware: the function applied to the refs, the array, or
    [[]] when the prop is absent. *)
Definition user_middleware (props : FloatProps) (refs : Refs) : list Middleware :=
  match props_middleware props with
  | MwFunction f => f refs
  | MwArray l => l
  | MwUndefined => []
  end.

(** The body of the effect: the array starts empty and is pushed to, guard
    after guard; its final content is what [setMiddleware] receives. *)
Definition buildMiddleware (props : FloatProps) (refs : Refs) : list Middleware :=
  let _middleware := [] in
  let _middleware :=
    if offset_guard props then push (offset_entry props) _middleware
    else _middleware in
  let _middleware :=
    if flip_guard props then push (flip_entry props) _middleware
    else _middleware in
  let _middleware :=
    if shift_guard props then push (shift_entry props) _middleware
    else _middleware in
  let _middleware :=
    if autoPlacement_guard props then push (autoPlacement_entry props) _middleware
    else _middleware in
  let _middleware :=
    if arrow_guard props then push (arrow_entry props) _middleware
    else _middleware in
  let _middleware := push_all (user_middleware props refs) _middleware in
  let _middleware :=
    if hide_guard props then push (hide_entry props) _middleware
    else _middleware in
  _middleware.

(** *** The pipeline as the specification words it *)

(** An entry that is there or not. *)
Definition optional (present : bool) (m : Middleware) : list Middleware :=
  if present then [m] else [].

(** The built-in geometry middlewares that are enabled, in the fixed order. *)
Definition geometry_part (props : FloatProps) : list Middleware :=
  optional (offset_guard props) (offset_entry props)
  ++ optional (flip_guard props) (flip_entry props)
  ++ optional (shift_guard props) (shift_entry props)
  ++ optional (autoPlacement_guard props) (autoPlacement_entry props)
  ++ optional (arrow_guard props) (arrow_entry props).

Definition hide_part (props : FloatProps) : list Middleware :=
  optional (hide_guard props) (hide_entry props).

Definition geometry_names : list string :=
  ["offset"; "flip"; "shift"; "autoPlacement"; "arrow"].

(** *** The six optional features and the types their props are declared with *)

Inductive Feature : Type :=
  | FOffset | FFlip | FShift | FAutoPlacement | FArrow | FHide.

Definition feature_name (f : Feature) : string :=
  match f with
  | FOffset => "offset"
  | FFlip => "flip"
  | FShift => "shift"
  | FAutoPlacement => "autoPlacement"
  | FArrow => "arrow"
  | FHide => "hide"
  end.

Definition feature_value (f : Feature) (props : FloatProps) : Value :=
  match f with
  | FOffset => props_offset props
  | FFlip => props_flip props
  | FShift => props_shift props
  | FAutoPlacement => props_autoPlacement props
  | FArrow => props_arrow props
  | FHide => props_hide props
  end.

(** The guard that the code puts on a feature. *)
Definition feature_guard (f : Feature) (props : FloatProps) : bool :=
  match f with
  | FOffset => offset_guard props
  | FFlip => flip_guard props
  | FShift => shift_guard props
  | FAutoPlacement => autoPlacement_guard props
  | FArrow => arrow_guard props
  | FHide => hide_guard props
  end.

(** The [typeof] results that the declared type of each prop admits; every
    prop is optional, and none admits [null]:
    [offset?: OffsetOptions] (a number, an object or a function),
    [shift?, flip?: boolean | number | Partial<...>],
    [arrow?: boolean | number],
    [autoPlacement?, hide?: boolean | Partial<...>]. *)
Definition declared_types (f : Feature) : list string :=
  match f with
  | FOffset => ["undefined"; "number"; "object"; "function"]
  | FFlip | FShift => ["undefined"; "boolean"; "number"; "object"]
  | FArrow => ["undefined"; "boolean"; "number"]
  | FAutoPlacement | FHide => ["undefined"; "boolean"; "object"]
  end.

Definition is_null (v : Value) : bool :=
  match v with VNull => true | _ => false end.

Definition well_typed_value (f : Feature) (v : Value) : bool :=
  negb (is_null v) && existsb (String.eqb (typeof v)) (declared_types f).

Definition well_typed (props : FloatProps) : Prop :=
  ∀ f, well_typed_value f (feature_value f props) = true.

(** A configuration value that is truthy, numeric, or an object. *)
Definition configured (v : Value) : bool :=
  truthy v || typeof_is v "number" || typeof_is v "object".

(** How many entries of a list carry a given name. *)
Definition count_named (k : string) (l : list Middleware) : nat :=
  length (filter (λ m, name m = k) l).

End Pipeline.

(** ** The show/hide and auto-update life cycle (lines 34-35 and 179-226) *)

Module Lifecycle.

(** The instance id that [useId] hands out. *)
Abbreviation Id := nat (only parsing).

(** The callbacks the component passes on. *)
Inductive Callback : Type := UpdateFloating.

(** [throttle(fn, wait)], as data: the function and the wait in ms. *)
Record Throttled : Type := { throttled_fn : Callback; throttled_wait : Z }.
Definition throttle (fn : Callback) (wait : Z) : Throttled :=
  {| throttled_fn := fn; throttled_wait := wait |}.

(** The disposer that a call of the engine's [autoUpdate] returns, named
    by the arguments of that call. *)
Record Disposer : Type := {
  sub_reference : Element;
  sub_floating : Element;
  sub_callback : Throttled;
  sub_options : Value;
}.

(** The two module-level maps. *)
Record World : Type := {
  autoUpdateCleanerMap : gmap nat Disposer;
  showStateMap : gmap nat bool;
}.

(** What the code does to the outside, in the order it does it. *)
Inductive Action : Type :=
  | ShowStateSet (id : Id) (v : bool)
  | ShowStateDelete (id : Id)
  | CleanerSet (id : Id) (d : Disposer)
  | CleanerDelete (id : Id)
  | CallAutoUpdate (d : Disposer)
  | CallDispose (d : Disposer)
  | CallUpdate
  | EventShow
  | EventHide
  | EventUpdate.

(** State, log and exceptions. *)
Definition M (A : Type) : Type := World → Outcome A * World * list Action.

#[export] Instance M_ret : MRet M := λ A a w, (Normal a, w, []).
#[export] Instance M_bind : MBind M := λ A B f m w,
  match m w with
  | (Normal a, w1, t1) =>
      match f a w1 with (r, w2, t2) => (r, w2, t1 ++ t2) end
  | (Thrown msg, w1, t1) => (Thrown msg, w1, t1)
  end.

Definition throw {A} (msg : string) : M A := λ w, (Thrown msg, w, []).
Definition act (a : Action) : M unit := λ w, (Normal tt, w, [a]).

(** [showStateMap.get / set / delete] and the same for the cleaners. *)
Definition showStateMap_get (id : Id) : M (option bool) :=
  λ w, (Normal (showStateMap w !! id), w, []).
Definition showStateMap_set (id : Id) (v : bool) : M unit :=
  λ w, (Normal tt,
        {| autoUpdateCleanerMap := autoUpdateCleanerMap w;
           showStateMap := <[id := v]> (showStateMap w) |},
        [ShowStateSet id v]).
Definition showStateMap_delete (id : Id) : M unit :=
  λ w, (Normal tt,
        {| autoUpdateCleanerMap := autoUpdateCleanerMap w;
           showStateMap := delete id (showStateMap w) |},
        [ShowStateDelete id]).
Definition autoUpdateCleanerMap_get (id : Id) : M (option Disposer) :=
  λ w, (Normal (autoUpdateCleanerMap w !! id), w, []).
Definition autoUpdateCleanerMap_set (id : Id) (d : Disposer) : M unit :=
  λ w, (Normal tt,
        {| autoUpdateCleanerMap := <[id := d]> (autoUpdateCleanerMap w);
           showStateMap := showStateMap w |},
        [CleanerSet id d]).
Definition autoUpdateCleanerMap_delete (id : Id) : M unit :=
  λ w, (Normal tt,
        {| autoUpdateCleanerMap := delete id (autoUpdateCleanerMap w);
           showStateMap := showStateMap w |},
        [CleanerDelete id]).

(** The engine's [autoUpdate]: it returns the disposer. *)
Definition autoUpdate (r f : Element) (cb : Throttled) (opts : Value) : M Disposer :=
  let d := {| sub_reference := r; sub_floating := f;
              sub_callback := cb; sub_options := opts |} in
  _ ← act (CallAutoUpdate d); mret d.

(** Truthiness of what the two [get]s return. *)
Definition marked (s : option bool) : bool :=
  match s with Some b => b | None => false end.
Definition defined {A} (o : option A) : bool :=
  match o with Some _ => true | None => false end.

(** [updateFloating]: recompute, then tell the caller. *)
Definition updateFloating : M unit :=
  _ ← act CallUpdate; act EventUpdate.

Definition startAutoUpdate (id : Id) (refs : Refs) (props : FloatProps) : M unit :=
  cleaner ← autoUpdateCleanerMap_get id;
  match reference_current refs, floating_current refs with
  | Some r, Some f =>
      if negb (is_false (props_autoUpdate props)) && negb (defined cleaner)
      then
        d ← autoUpdate r f (throttle UpdateFloating 16)
              (if typeof_is (props_autoUpdate props) "object"
               then props_autoUpdate props else VUndefined);
        autoUpdateCleanerMap_set id d
      else mret tt
  | _, _ => mret tt
  end.

(** The [!] only silences the type checker: calling [undefined] throws. *)
Definition clearAutoUpdate (id : Id) : M unit :=
  disposeAutoUpdate ← autoUpdateCleanerMap_get id;
  _ ← match disposeAutoUpdate with
      | Some d => act (CallDispose d)
      | None => throw "TypeError: disposeAutoUpdate is not a function"
      end;
  autoUpdateCleanerMap_delete id.

(** The guards of the two branches of the effect. *)
Definition attached (refs : Refs) : bool :=
  defined (reference_current refs) && defined (floating_current refs).

Definition show_transition_guard (refs : Refs) (show : bool) (w : World) (id : Id) : bool :=
  attached refs && show && negb (marked (showStateMap w !! id)).

Definition hide_transition_guard (show : bool) (w : World) (id : Id) : bool :=
  negb show && marked (showStateMap w !! id)
  && defined (autoUpdateCleanerMap w !! id).

(** The effect of lines 203-226; what it returns is its cleanup. *)
Definition visibilityEffect (id : Id) (refs : Refs) (props : FloatProps)
    (show : bool) : M (option Disposer) :=
  shown ← showStateMap_get id;
  _ ← (if attached refs && show && negb (marked shown) then
         _ ← showStateMap_set id true;
         _ ← act EventShow;
         startAutoUpdate id refs props
       else
         shown ← showStateMap_get id;
         cleaner ← autoUpdateCleanerMap_get id;
         if negb show && marked shown && defined cleaner then
           _ ← showStateMap_delete id;
           _ ← clearAutoUpdate id;
           act EventHide
         else mret tt);
  autoUpdateCleanerMap_get id.

(** The three components of a run from a given world. *)
Definition outcome_of {A} (m : M A) (w : World) : Outcome A := (m w).1.1.
Definition world_of {A} (m : M A) (w : World) : World := (m w).1.2.
Definition log_of {A} (m : M A) (w : World) : list Action := (m w).2.

(** The disposer that the call of [autoUpdate] in [startAutoUpdate] gives. *)
Definition disposer_of (r f : Element) (props : FloatProps) : Disposer :=
  {| sub_reference := r; sub_floating := f;
     sub_callback := throttle UpdateFloating 16;
     sub_options := if typeof_is (props_autoUpdate props) "object"
                    then props_autoUpdate props else VUndefined |}.

(** *** Runs of the effect over the life of an instance *)

(** What a render hands to the effect. *)
Record Render : Type := {
  render_refs : Refs;
  render_props : FloatProps;
  render_show : bool;
}.

(** Before the effect runs again, the cleanup of its previous run is called. *)
Definition rerun (id : Id) (cleanup : option Disposer) (r : Render)
  : M (option Disposer) :=
  _ ← match cleanup with
      | Some d => act (CallDispose d)
      | None => mret tt
      end;
  visibilityEffect id (render_refs r) (render_props r) (render_show r).

Fixpoint lifecycle (id : Id) (cleanup : option Disposer) (rs : list Render)
  : M (option Disposer) :=
  match rs with
  | [] => mret cleanup
  | r :: rs' => c ← rerun id cleanup r; lifecycle id c rs'
  end.

(** The effect depends on [show] alone: after its first run it runs again
    only when [show] has changed. *)
Fixpoint deps_changed (prev : bool) (rs : list Render) : Prop :=
  match rs with
  | [] => True
  | r :: rs' => render_show r ≠ prev ∧ deps_changed (render_show r) rs'
  end.

Definition runs_on_change (rs : list Render) : Prop :=
  match rs with
  | [] => True
  | r :: rs' => deps_changed (render_show r) rs'
  end.

Definition autoUpdate_enabled (r : Render) : Prop :=
  is_false (props_autoUpdate (render_props r)) = false.

(** No entry for the id in either map, as for an instance not yet mounted. *)
Definition fresh (id : Id) (w : World) : Prop :=
  showStateMap w !! id = None ∧ autoUpdateCleanerMap w !! id = None.

(** The invariant as the specification words it, after a render's run. *)
Definition subscribed (id : Id) (w : World) : Prop :=
  is_Some (autoUpdateCleanerMap w !! id).

Definition shown_and_attached (r : Render) : Prop :=
  render_show r = true ∧ attached (render_refs r) = true.

(** The two maps agree on the instance, and hold it exactly when the
    render [r] has [show] true and both handles attached. *)
Definition settled (id : Id) (r : Render) (w : World) : Prop :=
  marked (showStateMap w !! id) = defined (autoUpdateCleanerMap w !! id)
  ∧ defined (autoUpdateCleanerMap w !! id)
    = render_show r && attached (render_refs r).

End Lifecycle.

(** ** What the root hands to the transition primitive (lines 93-94, 228-230, 256-270) *)

Module TransitionBridge.

(** The two pieces of state of [FloatRoot]. *)
Record State : Type := { isMounted : bool; show : bool }.

(** [useState(false)] and
    [useState(props.show !== undefined ? props.show : false)]. *)
Definition initial_state (props : FloatProps) : State :=
  {| isMounted := false;
     show := match props_show props with Some b => b | None => false end |}.

Definition setIsMounted (v : bool) (st : State) : State :=
  {| isMounted := v; show := show st |}.
Definition setShow (v : bool) (st : State) : State :=
  {| isMounted := isMounted st; show := v |}.

(** The props of the transition primitive that bear on the state: the
    requested visibility and the four life-cycle callbacks the primitive
    accepts (the class-name strings are left out). *)
Record TransitionProps : Type := {
  transition_show : option bool;
  beforeEnter : option (State → State);
  afterEnter : option (State → State);
  beforeLeave : option (State → State);
  afterLeave : option (State → State);
}.

Definition transitionProps (props : FloatProps) (st : State) : TransitionProps :=
  {| transition_show := if isMounted st then props_show props else Some false;
     beforeEnter := Some (setShow true);
     afterEnter := None;
     beforeLeave := None;
     afterLeave := Some (setShow false) |}.

(** The moments at which the primitive calls back: before and after the
    entering animation, before and after the leaving one. *)
Inductive TransitionEvent : Type :=
  | BeforeEnter | AfterEnter | BeforeLeave | AfterLeave.

Definition handler (ev : TransitionEvent) (tp : TransitionProps)
  : option (State → State) :=
  match ev with
  | BeforeEnter => beforeEnter tp
  | AfterEnter => afterEnter tp
  | BeforeLeave => beforeLeave tp
  | AfterLeave => afterLeave tp
  end.

Definition fire (ev : TransitionEvent) (tp : TransitionProps) (st : State) : State :=
  match handler ev tp with
  | Some h => h st
  | None => st
  end.

(** What happens to a mounted root: it is rendered again with new props
    (its state is kept), its mount effect runs, or the primitive calls back. *)
Inductive Event : Type :=
  | Rerendered (props' : FloatProps)
  | MountEffect
  | Fired (ev : TransitionEvent).

Definition step (props : FloatProps) (e : Event) (st : State) : FloatProps * State :=
  match e with
  | Rerendered props' => (props', st)
  | MountEffect => (props, setIsMounted true st)
  | Fired ev => (props, fire ev (transitionProps props st) st)
  end.

End TransitionBridge.

(** ** The arrow (lines 37-55 and 333-354) *)

(** The numbers of the language, as far as the arrow needs them: integer
    literals, the product, the negative, and the string that a template
    literal puts for a number.  Multiplying by the literal [-1] negates. *)
Class JsNumber : Type := {
  number : Type;
  number_literal : Z → number;
  number_times : number → number → number;
  number_negate : number → number;
  number_toString : number → string;
  times_minus_one :
    ∀ n, number_times n (number_literal (-1)) = number_negate n;
}.

(** The integers, printed in decimal, are such numbers (as the language's
    are below 10^21 in size). *)
Definition integers : JsNumber :=
  {| number := Z;
     number_literal := λ n, n;
     number_times := Z.mul;
     number_negate := Z.opp;
     number_toString := pretty;
     times_minus_one := λ n, eq_sym (Z.opp_eq_mul_m1 n) |}.

Module ArrowComponent.

Inductive Placement : Type :=
  | Top | TopStart | TopEnd
  | Right | RightStart | RightEnd
  | Bottom | BottomStart | BottomEnd
  | Left | LeftStart | LeftEnd.

Definition placement_string (p : Placement) : string :=
  match p with
  | Top => "top" | TopStart => "top-start" | TopEnd => "top-end"
  | Right => "right" | RightStart => "right-start" | RightEnd => "right-end"
  | Bottom => "bottom" | BottomStart => "bottom-start" | BottomEnd => "bottom-end"
  | Left => "left" | LeftStart => "left-start" | LeftEnd => "left-end"
  end.

(** [s.split(sep)] for a one-character separator. *)
Fixpoint split_from (sep : ascii) (cur : string) (s : string) : list string :=
  match s with
  | EmptyString => [cur]
  | String c s' =>
      if Ascii.eqb c sep then cur :: split_from sep EmptyString s'
      else split_from sep (cur ++ String c EmptyString)%string s'
  end.
Definition split (sep : ascii) (s : string) : list string := split_from sep EmptyString s.

(** The object literal that maps a side to the one across. *)
Definition staticSideTable : gmap string string :=
  <["left" := "right"]> (<["bottom" := "top"]>
    (<["right" := "left"]> (<["top" := "bottom"]> ∅))).

(** [table[placement.split('-')[0]]]: a key that is not in the table, and
    the missing first piece which reads as the key "undefined", give
    [undefined]. *)
Definition staticSide (p : Placement) : option string :=
  staticSideTable !! default "undefined" (split "-" (placement_string p) !! 0%nat).

(** A computed key is the string of its value. *)
Definition computed_key (k : option string) : string := default "undefined" k.

Section Numbers.
Context {Num : JsNumber}.

Record ArrowState : Type := {
  arrowRef : Value;
  placement : Placement;
  x : option number;
  y : option number;
}.

(** [useContext(ArrowContext)]: the value of the nearest enclosing provider,
    innermost first, or the default [null] when there is none. *)
Definition useContext (providers : list (option ArrowState)) : option ArrowState :=
  match providers with
  | v :: _ => v
  | [] => None
  end.

Definition useArrowContext (component : string)
    (providers : list (option ArrowState)) : Outcome ArrowState :=
  match useContext providers with
  | None =>
      Thrown ("<" ++ component ++ " /> is missing a parent <Float /> component.")%string
  | Some context => Normal context
  end.

(** What the root provides (lines 232-237 and 316). *)
Definition arrowApi (p : Placement) (arrow_x arrow_y : option number) : ArrowState :=
  {| arrowRef := VRef "arrowRef"; placement := p; x := arrow_x; y := arrow_y |}.

Definition provide (api : ArrowState) (providers : list (option ArrowState))
  : list (option ArrowState) :=
  Some api :: providers.

(** [`${n}px`] *)
Definition px (n : number) : string := (number_toString n ++ "px")%string.

(** The style object of [Arrow]: four keys, then the computed one, which
    replaces the value of the key it names. *)
Definition style (p : Placement) (x y : option number) (offset : option number)
  : gmap string string :=
  <[computed_key (staticSide p) :=
      px (number_times (default (number_literal 4) offset) (number_literal (-1)))]>
    (<["bottom" := EmptyString]> (<["right" := EmptyString]>
      (<["top" := match y with Some n => px n | None => EmptyString end]>
        (<["left" := match x with Some n => px n | None => EmptyString end]> ∅)))).

(** [Arrow] up to its style: the context is looked up, then the style is
    computed from it and from [props.offset]. *)
Definition Arrow (props_offset : option number) (providers : list (option ArrowState))
  : Outcome (gmap string string) :=
  match useArrowContext "Float.Arrow" providers with
  | Thrown msg => Thrown msg
  | Normal context =>
      Normal (style (placement context) (x context) (y context) props_offset)
  end.

End Numbers.

(** The side a placement names and the side across from it, as the
    specification words them. *)
Inductive Side : Type := SideTop | SideRight | SideBottom | SideLeft.

Definition side_of (p : Placement) : Side :=
  match p with
  | Top | TopStart | TopEnd => SideTop
  | Right | RightStart | RightEnd => SideRight
  | Bottom | BottomStart | BottomEnd => SideBottom
  | Left | LeftStart | LeftEnd => SideLeft
  end.

Definition opposite (s : Side) : Side :=
  match s with
  | SideTop => SideBottom
  | SideRight => SideLeft
  | SideBottom => SideTop
  | SideLeft => SideRight
  end.

Definition side_string (s : Side) : string :=
  match s with
  | SideTop => "top"
  | SideRight => "right"
  | SideBottom => "bottom"
  | SideLeft => "left"
  end.

(** Across the placement's side lies the cross axis: [left], fed by [x],
    for placements above and below; [top], fed by [y], for those beside. *)
Definition cross_key (s : Side) : string :=
  match s with
  | SideTop | SideBottom => "left"
  | SideLeft | SideRight => "top"
  end.

Definition cross_coordinate {A : Type} (s : Side) (x y : option A) : option A :=
  match s with
  | SideTop | SideBottom => x
  | SideLeft | SideRight => y
  end.

End ArrowComponent.


(** ** Concrete instances *)

Module Examples.
Import Lifecycle.

(** Props with nothing set. *)
Definition no_props : FloatProps :=
  {| props_show := None;
     props_offset := VUndefined; props_shift := VUndefined;
     props_flip := VUndefined; props_arrow := VUndefined;
     props_autoPlacement := VUndefined; props_hide := VUndefined;
     props_autoUpdate := VUndefined; props_middleware := MwUndefined |}.

(** [{offset: 8, flip: true}] *)
Definition offset_flip_props : FloatProps :=
  {| props_show := None;
     props_offset := VNum 8; props_shift := VUndefined;
     props_flip := VBool true; props_arrow := VUndefined;
     props_autoPlacement := VUndefined; props_hide := VUndefined;
     props_autoUpdate := VUndefined; props_middleware := MwUndefined |}.

(** [{show: true}] and [{show: true, autoUpdate: false}] *)
Definition requesting_props : FloatProps :=
  {| props_show := Some true;
     props_offset := VUndefined; props_shift := VUndefined;
     props_flip := VUndefined; props_arrow := VUndefined;
     props_autoPlacement := VUndefined; props_hide := VUndefined;
     props_autoUpdate := VUndefined; props_middleware := MwUndefined |}.

Definition autoUpdate_off_props : FloatProps :=
  {| props_show := Some true;
     props_offset := VUndefined; props_shift := VUndefined;
     props_flip := VUndefined; props_arrow := VUndefined;
     props_autoPlacement := VUndefined; props_hide := VUndefined;
     props_autoUpdate := VBool false; props_middleware := MwUndefined |}.

Definition no_refs : Refs :=
  {| reference_current := None; floating_current := None |}.
Definition both_refs : Refs :=
  {| reference_current := Some 0%nat; floating_current := Some 1%nat |}.

Definition empty_world : World :=
  {| autoUpdateCleanerMap := ∅; showStateMap := ∅ |}.

(** The world after instance 7 has been shown from the empty one. *)
Definition shown_world : World :=
  world_of (visibilityEffect 7 both_refs requesting_props true) empty_world.

Definition showing_render : Render :=
  {| render_refs := both_refs; render_props := requesting_props;
     render_show := true |}.
Definition hiding_render : Render :=
  {| render_refs := both_refs; render_props := requesting_props;
     render_show := false |}.

(** Attached, shown, and [autoUpdate] switched off. *)
Definition unsubscribed_render : Render :=
  {| render_refs := both_refs; render_props := autoUpdate_off_props;
     render_show := true |}.

(** A root that is mounted and hidden. *)
Definition hidden_state : TransitionBridge.State :=
  {| TransitionBridge.isMounted := true; TransitionBridge.show := false |}.

End Examples.

(** ** Traces of the life cycle, and lookups in option objects *)

Module Traces.
Import Lifecycle.

(** Whether the instance counts as shown after the [events.show] and
    [events.hide] calls of a log, given whether it did before. *)
Fixpoint shown_after (before : bool) (log : list Action) : bool :=
  match log with
  | [] => before
  | EventShow :: log' => shown_after true log'
  | EventHide :: log' => shown_after false log'
  | _ :: log' => shown_after before log'
  end.

(** The calls of [events.show] and [events.hide] take turns: a show only
    when hidden, a hide only when shown. *)
Fixpoint alternates (before : bool) (log : list Action) : Prop :=
  match log with
  | [] => True
  | EventShow :: log' => before = false ∧ alternates true log'
  | EventHide :: log' => before = true ∧ alternates false log'
  | _ :: log' => alternates before log'
  end.

(** A cleaner is stored only for an instance that is marked, and the mark,
    when there is one, is [true]. *)
Definition consistent (id : nat) (w : World) : Prop :=
  (is_Some (autoUpdateCleanerMap w !! id) → showStateMap w !! id = Some true)
  ∧ showStateMap w !! id ≠ Some false.

(** What calling the cleanup of the previous run logs. *)
Definition cleanup_log (cleanup : option Disposer) : list Action :=
  match cleanup with Some d => [CallDispose d] | None => [] end.

(** [o[k]] for an object kept as its list of entries. *)
Fixpoint obj_get (k : string) (o : list (string * Value)) : option Value :=
  match o with
  | [] => None
  | (k', v) :: o' => if String.eqb k k' then Some v else obj_get k o'
  end.

Definition all_features : list Pipeline.Feature :=
  [Pipeline.FOffset; Pipeline.FFlip; Pipeline.FShift;
   Pipeline.FAutoPlacement; Pipeline.FArrow; Pipeline.FHide].

Definition builtin_names : list string :=
  ["offset"; "flip"; "shift"; "autoPlacement"; "arrow"; "hide"].

(** The root over a series of events. *)
Fixpoint run_events (props : FloatProps) (es : list TransitionBridge.Event)
    (st : TransitionBridge.State) : FloatProps * TransitionBridge.State :=
  match es with
  | [] => (props, st)
  | e :: es' =>
      let '(props', st') := TransitionBridge.step props e st in
      run_events props' es' st'
  end.

(** What the last [beforeEnter] or [afterLeave] among the events set. *)
Fixpoint last_commit (es : list TransitionBridge.Event) : option bool :=
  match es with
  | [] => None
  | e :: es' =>
      match last_commit es' with
      | Some b => Some b
      | None =>
          match e with
          | TransitionBridge.Fired TransitionBridge.BeforeEnter => Some true
          | TransitionBridge.Fired TransitionBridge.AfterLeave => Some false
          | _ => None
          end
      end
  end.

(** Whether the mount effect is among the events. *)
Definition mounts (e : TransitionBridge.Event) : bool :=
  match e with TransitionBridge.MountEffect => true | _ => false end.

End Traces.

(** ** Rendering (lines 232-254, 290-298 and 356-375) *)

Module Rendering.
Import ArrowComponent.

(** *** The portal (lines 290-298) *)

(** [props.portal]: absent, a boolean, or a selector. *)
Inductive PortalProp : Type :=
  | PortalUndefined
  | PortalBool (b : bool)
  | PortalSelector (s : string).

Definition portal_truthy (p : PortalProp) : bool :=
  match p with
  | PortalUndefined => false
  | PortalBool b => b
  | PortalSelector s => negb (String.eqb s EmptyString)
  end.

(** [props.portal === true ? 'body' : props.portal], for a truthy prop. *)
Definition portal_selector (p : PortalProp) : string :=
  match p with
  | PortalBool true => "body"
  | PortalSelector s => s
  | _ => EmptyString
  end.

(** The global [document]: not declared at all (as outside a browser),
    declared but [undefined] or [null], or an object whose [querySelector]
    finds an element, finds none, or throws on a selector it cannot parse. *)
Inductive Document : Type :=
  | DocumentUndeclared
  | DocumentNullish
  | DocumentObject (querySelector : string → Outcome (option Element)).

(** What is rendered: the children where they are, or in a portal. *)
Inductive Placed (A : Type) : Type :=
  | InPlace (children : A)
  | InPortal (root : Element) (children : A).
Arguments InPlace {A} children.
Arguments InPortal {A} root children.

(** [document?.querySelector(...)]: reading a name that is not declared
    throws, the [?.] covers only [undefined] and [null]. *)
Definition renderPortal {A} (document : Document) (isMounted : bool)
    (portal : PortalProp) (children : A) : Outcome (Placed A) :=
  if isMounted && portal_truthy portal then
    match document with
    | DocumentUndeclared => Thrown "ReferenceError: document is not defined"
    | DocumentNullish => Normal (InPlace children)
    | DocumentObject querySelector =>
        match querySelector (portal_selector portal) with
        | Thrown msg => Thrown msg
        | Normal (Some root) => Normal (InPortal root children)
        | Normal None => Normal (InPlace children)
        end
    end
  else Normal (InPlace children).

(** *** The origin class (lines 245-254) *)

(** [props.originClass]: absent, a string, or a resolver; a function is
    what it is by identity, which the tag stands for. *)
Inductive OriginClassProp : Type :=
  | OriginUndefined
  | OriginString (s : string)
  | OriginResolver (tag : nat) (f : Placement → string).

(** The body of the memo; the built-in resolver is a parameter. *)
Definition originClass_of (tailwindcssOriginClassResolver : Placement → string)
    (originClass : OriginClassProp) (tailwindcssOriginClass : option bool)
    (placement : Placement) : string :=
  match originClass with
  | OriginResolver _ f => f placement
  | OriginString s => s
  | OriginUndefined =>
      if default false tailwindcssOriginClass
      then tailwindcssOriginClassResolver placement
      else EmptyString
  end.

(** The dependency list [[props.originClass, props.tailwindcssOriginClass]]
    and its comparison, entry by entry, as [Object.is] compares. *)
Definition same_originClass (a b : OriginClassProp) : bool :=
  match a, b with
  | OriginUndefined, OriginUndefined => true
  | OriginString s, OriginString t => String.eqb s t
  | OriginResolver i _, OriginResolver j _ => Nat.eqb i j
  | _, _ => false
  end.

Definition same_flag (a b : option bool) : bool :=
  match a, b with
  | None, None => true
  | Some x, Some y => Bool.eqb x y
  | _, _ => false
  end.

Record Memo : Type := {
  memo_originClass : OriginClassProp;
  memo_tailwindcssOriginClass : option bool;
  memo_value : string;
}.

(** [useMemo]: the value is computed at the first render and again only
    when an entry of the dependency list has changed. *)
Definition originClassValue (resolver : Placement → string)
    (previous : option Memo) (originClass : OriginClassProp)
    (tailwindcssOriginClass : option bool) (placement : Placement) : Memo :=
  let computed :=
    {| memo_originClass := originClass;
       memo_tailwindcssOriginClass := tailwindcssOriginClass;
       memo_value :=
         originClass_of resolver originClass tailwindcssOriginClass placement |} in
  match previous with
  | Some m =>
      if same_originClass (memo_originClass m) originClass
         && same_flag (memo_tailwindcssOriginClass m) tailwindcssOriginClass
      then m else computed
  | None => computed
  end.

(** The root rendered once for each placement of a series, props unchanged. *)
Fixpoint originClass_over (resolver : Placement → string)
    (previous : option Memo) (originClass : OriginClassProp)
    (tailwindcssOriginClass : option bool) (placements : list Placement)
  : option Memo :=
  match placements with
  | [] => previous
  | p :: ps =>
      originClass_over resolver
        (Some (originClassValue resolver previous originClass
                 tailwindcssOriginClass p))
        originClass tailwindcssOriginClass ps
  end.

(** *** What the root provides to the arrow (lines 232-237) *)

Section Numbers.
Context {Num : JsNumber}.

(** [middlewareData.arrow], when the arrow middleware has run. *)
Record ArrowData : Type := { data_x : option number; data_y : option number }.

(** [middlewareData.arrow?.x] and [?.y] *)
Definition provided_arrowApi (p : Placement) (data : option ArrowData) : ArrowState :=
  arrowApi p (data ≫= data_x) (data ≫= data_y).

(** *** The node of the arrow (lines 333-375) *)

(** [props.as]: absent, the fragment, or a tag or component by its name. *)
Inductive AsProp : Type :=
  | AsUndefined
  | AsFragment
  | AsType (t : string).

Record ReactElement : Type := {
  element_type : string;
  element_props : list (string * Value);
}.

(** What a [children] prop holds or a render prop returns. *)
Inductive Child : Type :=
  | ChildElement (e : ReactElement)
  | ChildOther (v : Value).

Inductive ChildrenProp : Type :=
  | ChildrenNode (c : Child)
  | ChildrenFunction (f : Placement → Child).

Record ArrowProps : Type := {
  arrow_as : AsProp;
  arrow_offset : option number;
  arrow_className : Value;
  arrow_children : ChildrenProp;
}.

(** What [Arrow] returns: the child with ref and style added, or a wrapper
    that gets all the props, the ref and the style. *)
Inductive Rendered : Type :=
  | ChildNode (e : ReactElement) (ref : Value) (css : gmap string string)
  | WrapperNode (type : string) (props : ArrowProps) (ref : Value)
      (css : gmap string string).

(** [props.as || 'div'], for an [as] that is not the fragment. *)
Definition wrapper_type (a : AsProp) : string :=
  match a with
  | AsType t => if negb (String.eqb t EmptyString) then t else "div"
  | _ => "div"
  end.

Definition fragment_error : string :=
  "When the prop `as` of <Float.Arrow /> is <Fragment />, there must be contains 1 child element.".

Definition ArrowRender (props : ArrowProps) (providers : list (option ArrowState))
  : Outcome Rendered :=
  match useArrowContext "Float.Arrow" providers with
  | Thrown msg => Thrown msg
  | Normal context =>
      let css :=
        style (placement context) (x context) (y context) (arrow_offset props) in
      match arrow_as props with
      | AsFragment =>
          let ArrowNode :=
            match arrow_children props with
            | ChildrenFunction f => f (placement context)
            | ChildrenNode c => c
            end in
          match ArrowNode with
          | ChildElement e => Normal (ChildNode e (arrowRef context) css)
          | ChildOther _ => Thrown fragment_error
          end
      | a => Normal (WrapperNode (wrapper_type a) props (arrowRef context) css)
      end
  end.

(** The node that the fragment branch looks at, and the ref and the style
    that a rendered node carries. *)
Definition resolve_children (props : ArrowProps) (p : Placement) : Child :=
  match arrow_children props with
  | ChildrenFunction f => f p
  | ChildrenNode c => c
  end.

Definition node_ref (n : Rendered) : Value :=
  match n with ChildNode _ r _ => r | WrapperNode _ _ r _ => r end.

Definition node_css (n : Rendered) : gmap string string :=
  match n with ChildNode _ _ c => c | WrapperNode _ _ _ c => c end.

End Numbers.

End Rendering.

(** * Properties *)

(** ** The middleware pipeline *)

Module PipelineFacts.
Import Pipeline Examples.

Lemma buildMiddleware_parts props refs :
  buildMiddleware props refs
  = geometry_part props ++ user_middleware props refs ++ hide_part props.
Proof.
  unfold buildMiddleware, geometry_part, hide_part, optional, push, push_all.
  destruct (offset_guard props), (flip_guard props), (shift_guard props),
    (autoPlacement_guard props), (arrow_guard props), (hide_guard props);
    cbn [app]; rewrite <- ?app_assoc, ?app_nil_r; reflexivity.
Qed.

Lemma geometry_part_names props :
  sublist (name <$> geometry_part props) geometry_names.
Proof.
  unfold geometry_part, optional, geometry_names.
  destruct (offset_guard props), (flip_guard props), (shift_guard props),
    (autoPlacement_guard props), (arrow_guard props); cbn;
    repeat first [ apply sublist_nil | apply sublist_skip | apply sublist_cons ].
Qed.

Lemma hide_part_names props :
  sublist (name <$> hide_part props) ["hide"].
Proof.
  unfold hide_part, optional. destruct (hide_guard props); cbn;
    repeat first [ apply sublist_nil | apply sublist_skip | apply sublist_cons ].
Qed.

(** C1. Whatever the props, the array handed to [setMiddleware] is the
    enabled built-in geometry middlewares in the order offset, flip, shift,
    autoPlacement, arrow (each there exactly when its guard holds), then the
    user's middleware, then hide when it is enabled; so the names of what
    precedes the user's middleware are a subsequence of the five geometry
    names in that order and what follows it is at most the one hide. *)
Theorem pipeline_order (props : FloatProps) (refs : Refs) :
  buildMiddleware props refs
  = optional (offset_guard props) (offset_entry props)
    ++ optional (flip_guard props) (flip_entry props)
    ++ optional (shift_guard props) (shift_entry props)
    ++ optional (autoPlacement_guard props) (autoPlacement_entry props)
    ++ optional (arrow_guard props) (arrow_entry props)
    ++ user_middleware props refs
    ++ optional (hide_guard props) (hide_entry props)
  ∧ (∃ geometry tail,
       buildMiddleware props refs = geometry ++ user_middleware props refs ++ tail
       ∧ sublist (name <$> geometry) ["offset"; "flip"; "shift"; "autoPlacement"; "arrow"]
       ∧ sublist (name <$> tail) ["hide"]).
Proof.
  split.
  - rewrite buildMiddleware_parts. unfold geometry_part, hide_part.
    rewrite <- !app_assoc. reflexivity.
  - exists (geometry_part props), (hide_part props).
    split; [apply buildMiddleware_parts|].
    split; [apply geometry_part_names | apply hide_part_names].
Qed.

(** *** Which features are in the pipeline *)

Lemma count_named_app k l1 l2 :
  count_named k (l1 ++ l2) = (count_named k l1 + count_named k l2)%nat.
Proof. unfold count_named. rewrite filter_app, length_app. reflexivity. Qed.

(** The built-in entries named after a feature: one when its guard holds. *)
Lemma count_named_builtin f props :
  (count_named (feature_name f) (geometry_part props)
   + count_named (feature_name f) (hide_part props))%nat
  = if feature_guard f props then 1%nat else 0%nat.
Proof.
  unfold geometry_part, hide_part, optional.
  destruct f; cbn [feature_name feature_guard];
    destruct (offset_guard props), (flip_guard props), (shift_guard props),
      (autoPlacement_guard props), (arrow_guard props), (hide_guard props);
    reflexivity.
Qed.

Lemma count_named_pipeline f props refs :
  count_named (feature_name f) (buildMiddleware props refs)
  = (count_named (feature_name f) (user_middleware props refs)
     + if feature_guard f props then 1 else 0)%nat.
Proof.
  rewrite buildMiddleware_parts, !count_named_app, <- count_named_builtin. lia.
Qed.

(** On a value of the declared type, the guard in the code says what the
    specification says. *)
Lemma guard_configured f props :
  well_typed_value f (feature_value f props) = true →
  feature_guard f props = configured (feature_value f props).
Proof.
  unfold well_typed_value, configured.
  destruct f; cbn [feature_guard feature_value declared_types];
    unfold offset_guard, flip_guard, shift_guard, autoPlacement_guard,
      arrow_guard, hide_guard, typeof_is;
    match goal with |- context [typeof ?v] => destruct v as [| |[]|n| | | |] end;
    cbn; try discriminate; try reflexivity;
    destruct (n =? 0); reflexivity.
Qed.

Lemma count_named_pos k l :
  (∃ m, m ∈ l ∧ name m = k) ↔ (0 < count_named k l)%nat.
Proof.
  unfold count_named. split.
  - intros (m & Hin & Hn).
    assert (Hf : m ∈ filter (λ m, name m = k) l)
      by (apply list_elem_of_filter; auto).
    destruct (filter (λ m, name m = k) l); [by apply elem_of_nil in Hf|].
    cbn. lia.
  - intros Hpos.
    destruct (filter (λ m, name m = k) l) as [|m l'] eqn:E; [cbn in Hpos; lia|].
    assert (Hf : m ∈ filter (λ m, name m = k) l) by (rewrite E; left).
    apply list_elem_of_filter in Hf as [Hn Hin]. eauto.
Qed.

(** The scenario of the specification: [{offset: 8, flip: true}] gives
    [[offset(8), flip({padding: undefined})]]. *)
Example offset_flip_pipeline :
  buildMiddleware offset_flip_props no_refs
  = [FloatingUI.offset (VNum 8);
     FloatingUI.flip (VObj [("padding", VUndefined)])].
Proof. reflexivity. Qed.

(** The type hypothesis below is needed: a number given to [hide], which its
    declared type rules out, is numeric and yet not in the pipeline. *)
Example hide_number_left_out :
  configured (VNum 5) = true
  ∧ buildMiddleware
      {| props_show := None;
         props_offset := VUndefined; props_shift := VUndefined;
         props_flip := VUndefined; props_arrow := VUndefined;
         props_autoPlacement := VUndefined; props_hide := VNum 5;
         props_autoUpdate := VUndefined; props_middleware := MwUndefined |}
      no_refs = [].
Proof. split; reflexivity. Qed.

(** C3. For props of their declared types and each of the six features, the
    pipeline holds one entry of the feature's name more than the user's
    middleware does exactly when the feature's prop is truthy, a number or
    an object; so, when the user supplies none of that name, an entry of that
    name is in the pipeline if and only if the prop is truthy, a number or an
    object; and with the prop [false] or [undefined] the pipeline holds no
    more of them than the user's middleware. *)
Theorem feature_included_iff_configured
    (props : FloatProps) (refs : Refs) (f : Feature) :
  well_typed props →
  count_named (feature_name f) (buildMiddleware props refs)
  = (count_named (feature_name f) (user_middleware props refs)
     + if configured (feature_value f props) then 1 else 0)%nat
  ∧ (count_named (feature_name f) (user_middleware props refs) = 0%nat →
     ((∃ m, m ∈ buildMiddleware props refs ∧ name m = feature_name f)
      ↔ configured (feature_value f props) = true))
  ∧ (feature_value f props = VBool false ∨ feature_value f props = VUndefined →
     count_named (feature_name f) (buildMiddleware props refs)
     = count_named (feature_name f) (user_middleware props refs)).
Proof.
  intros Hty. specialize (Hty f).
  rewrite count_named_pos, count_named_pipeline, (guard_configured f props Hty).
  split; [reflexivity|]. split.
  - intros ->. destruct (configured (feature_value f props)); cbn;
      split; intros; try lia; try discriminate; reflexivity.
  - intros [-> | ->]; cbn; lia.
Qed.

Lemma feature_included_witness :
  well_typed offset_flip_props
  ∧ count_named "flip" (buildMiddleware offset_flip_props no_refs) = 1%nat
  ∧ count_named "shift" (buildMiddleware offset_flip_props no_refs) = 0%nat.
Proof.
  assert (Hty : well_typed offset_flip_props) by (intros []; reflexivity).
  split; [exact Hty|]. split.
  - exact (proj1 (feature_included_iff_configured
                    offset_flip_props no_refs FFlip Hty)).
  - exact (proj1 (feature_included_iff_configured
                    offset_flip_props no_refs FShift Hty)).
Defined.

End PipelineFacts.

(** ** The life cycle *)

Module LifecycleFacts.
Import Lifecycle Examples.

Ltac unfold_effect :=
  unfold visibilityEffect, startAutoUpdate, clearAutoUpdate, autoUpdate,
    showStateMap_get, showStateMap_set, showStateMap_delete,
    autoUpdateCleanerMap_get, autoUpdateCleanerMap_set,
    autoUpdateCleanerMap_delete, act, throw;
  unfold mbind, mret, M_bind, M_ret.

(** Membership in a log that is written out. *)
Ltac log_solver :=
  unfold not; intros;
  repeat match goal with
  | H : _ ∈ [] |- _ => apply elem_of_nil in H; destruct H
  | H : _ ∈ _ :: _ |- _ =>
      apply elem_of_cons in H; destruct H as [H | H]; [try discriminate H |]
  end;
  solve [ done | rewrite ?elem_of_cons; auto 10 ].

(** *** The three ways a run of the effect can go *)

(** Neither guard holds: nothing happens. *)
Lemma visibilityEffect_idle id refs props show w :
  show_transition_guard refs show w id = false →
  hide_transition_guard show w id = false →
  visibilityEffect id refs props show w
  = (Normal (autoUpdateCleanerMap w !! id), w, []).
Proof.
  unfold show_transition_guard, hide_transition_guard. intros Hs Hh.
  unfold_effect. cbn. rewrite Hs. cbn. rewrite Hh. reflexivity.
Qed.

(** The show branch. *)
Lemma visibilityEffect_show id refs props w r f :
  reference_current refs = Some r →
  floating_current refs = Some f →
  marked (showStateMap w !! id) = false →
  visibilityEffect id refs props true w
  = if negb (is_false (props_autoUpdate props))
       && negb (defined (autoUpdateCleanerMap w !! id))
    then (Normal (Some (disposer_of r f props)),
          {| autoUpdateCleanerMap :=
               <[id := disposer_of r f props]> (autoUpdateCleanerMap w);
             showStateMap := <[id := true]> (showStateMap w) |},
          [ShowStateSet id true; EventShow;
           CallAutoUpdate (disposer_of r f props);
           CleanerSet id (disposer_of r f props)])
    else (Normal (autoUpdateCleanerMap w !! id),
          {| autoUpdateCleanerMap := autoUpdateCleanerMap w;
             showStateMap := <[id := true]> (showStateMap w) |},
          [ShowStateSet id true; EventShow]).
Proof.
  intros Hr Hf Hm. unfold_effect. unfold attached. cbn.
  rewrite Hr, Hf, Hm. cbn.
  destruct (negb (is_false (props_autoUpdate props))
            && negb (defined (autoUpdateCleanerMap w !! id))); cbn.
  - rewrite lookup_insert_eq. reflexivity.
  - reflexivity.
Qed.

(** The hide branch. *)
Lemma visibilityEffect_hide id refs props w d :
  marked (showStateMap w !! id) = true →
  autoUpdateCleanerMap w !! id = Some d →
  visibilityEffect id refs props false w
  = (Normal None,
     {| autoUpdateCleanerMap := delete id (autoUpdateCleanerMap w);
        showStateMap := delete id (showStateMap w) |},
     [ShowStateDelete id; CallDispose d; CleanerDelete id; EventHide]).
Proof.
  intros Hm Hc. unfold_effect. cbn.
  rewrite andb_false_r. cbn. rewrite Hm, Hc. cbn. rewrite Hc. cbn.
  rewrite lookup_delete_eq. reflexivity.
Qed.

(** What the guards say, taken apart. *)
Lemma attached_inv refs :
  attached refs = true →
  ∃ r f, reference_current refs = Some r ∧ floating_current refs = Some f.
Proof.
  unfold attached.
  destruct (reference_current refs) as [r|], (floating_current refs) as [f|];
    cbn; try discriminate; eauto.
Qed.

Lemma show_guard_inv refs show w id :
  show_transition_guard refs show w id = true →
  attached refs = true ∧ show = true ∧ marked (showStateMap w !! id) = false.
Proof.
  unfold show_transition_guard.
  destruct (attached refs), show, (marked (showStateMap w !! id));
    cbn; intros; try discriminate; auto.
Qed.

Lemma hide_guard_inv show w id :
  hide_transition_guard show w id = true →
  show = false ∧ marked (showStateMap w !! id) = true
  ∧ ∃ d, autoUpdateCleanerMap w !! id = Some d.
Proof.
  unfold hide_transition_guard.
  destruct show, (marked (showStateMap w !! id)),
    (autoUpdateCleanerMap w !! id) as [d|];
    cbn; intros; try discriminate; eauto.
Qed.

(** A run of the effect goes one of the three ways. *)
Lemma visibilityEffect_cases id refs show w :
  (show_transition_guard refs show w id = true
   ∧ ∃ r f, reference_current refs = Some r ∧ floating_current refs = Some f
     ∧ show = true ∧ marked (showStateMap w !! id) = false)
  ∨ (show_transition_guard refs show w id = false
     ∧ hide_transition_guard show w id = true
     ∧ show = false ∧ marked (showStateMap w !! id) = true
     ∧ ∃ d, autoUpdateCleanerMap w !! id = Some d)
  ∨ (show_transition_guard refs show w id = false
     ∧ hide_transition_guard show w id = false).
Proof.
  destruct (show_transition_guard refs show w id) eqn:Hs.
  - left. split; [reflexivity|].
    destruct (show_guard_inv _ _ _ _ Hs) as (Ha & -> & Hm).
    destruct (attached_inv _ Ha) as (r & f & Hr & Hf). eauto 10.
  - destruct (hide_transition_guard show w id) eqn:Hh.
    + right; left. destruct (hide_guard_inv _ _ _ Hh) as (-> & Hm & d & Hd).
      eauto 10.
    + right; right. auto.
Qed.

(** C4. The show branch of the effect is taken exactly when both handles
    are attached, [show] is true and the shown map does not mark the
    instance.  When it is taken the effect sets the shown entry, then calls
    [events.show], then (only with no cleaner for the instance, and
    [autoUpdate] not [false]) calls [autoUpdate] and stores the disposer.
    No run calls [autoUpdate] while a cleaner exists, and a run with [show]
    true on an instance already marked does nothing at all. *)
Theorem show_transition
    (id : nat) (refs : Refs) (props : FloatProps) (show : bool) (w : World) :
  (EventShow ∈ log_of (visibilityEffect id refs props show) w
   ↔ attached refs = true ∧ show = true ∧ marked (showStateMap w !! id) = false)
  ∧ (attached refs = true ∧ show = true ∧ marked (showStateMap w !! id) = false →
     ∃ d,
       log_of (visibilityEffect id refs props show) w
       = [ShowStateSet id true; EventShow]
         ++ (if negb (is_false (props_autoUpdate props))
                && negb (defined (autoUpdateCleanerMap w !! id))
             then [CallAutoUpdate d; CleanerSet id d] else [])
       ∧ marked (showStateMap (world_of (visibilityEffect id refs props show) w) !! id)
         = true)
  ∧ (∀ d, CallAutoUpdate d ∈ log_of (visibilityEffect id refs props show) w →
          autoUpdateCleanerMap w !! id = None)
  ∧ (show = true → marked (showStateMap w !! id) = true →
     log_of (visibilityEffect id refs props show) w = []
     ∧ world_of (visibilityEffect id refs props show) w = w).
Proof.
  unfold log_of, world_of.
  destruct (visibilityEffect_cases id refs show w)
    as [(Hs & r & f & Hr & Hf & -> & Hm)
       | [(Hs & Hh & -> & Hm & d & Hd) | (Hs & Hh)]].
  - rewrite (visibilityEffect_show id refs props w r f Hr Hf Hm).
    destruct (show_guard_inv _ _ _ _ Hs) as (Ha & _ & _).
    destruct (autoUpdateCleanerMap w !! id) as [c|] eqn:Hc;
      destruct (is_false (props_autoUpdate props)); cbn;
      (split; [split; [auto | intros _; log_solver] |]);
      (split; [intros _; exists (disposer_of r f props); split;
                 [reflexivity | by rewrite lookup_insert_eq] |]);
      (split; [intros d' Hd'; try reflexivity; log_solver |]);
      intros _ Hm'; congruence.
  - rewrite (visibilityEffect_hide id refs props w d Hm Hd). cbn.
    split; [split; [log_solver | intros (_ & ? & _); discriminate] |].
    split; [intros (_ & ? & _); discriminate |].
    split; [intros d' Hd'; log_solver | intros ?; discriminate].
  - rewrite (visibilityEffect_idle id refs props show w Hs Hh). cbn.
    split; [split; [log_solver |] |].
    { intros (Ha & -> & Hm). unfold show_transition_guard in Hs.
      rewrite Ha, Hm in Hs. discriminate. }
    split.
    { intros (Ha & -> & Hm). unfold show_transition_guard in Hs.
      rewrite Ha, Hm in Hs. discriminate. }
    split; [intros d' Hd'; log_solver | auto].
Qed.

(** The body of the effect on its own, without the cleanup that precedes a
    run: its hide branch is taken exactly when [show] is false, the shown
    map marks the instance and a cleaner exists; it then deletes the shown
    entry, calls the disposer, deletes the cleaner entry and calls
    [events.hide]; with [show] false and no cleaner it logs nothing and
    leaves both maps as they were. *)
Theorem hide_transition
    (id : nat) (refs : Refs) (props : FloatProps) (show : bool) (w : World) :
  (EventHide ∈ log_of (visibilityEffect id refs props show) w
   ↔ show = false ∧ marked (showStateMap w !! id) = true
     ∧ is_Some (autoUpdateCleanerMap w !! id))
  ∧ (show = false ∧ marked (showStateMap w !! id) = true
     ∧ is_Some (autoUpdateCleanerMap w !! id) →
     ∃ d, autoUpdateCleanerMap w !! id = Some d
       ∧ log_of (visibilityEffect id refs props show) w
         = [ShowStateDelete id; CallDispose d; CleanerDelete id; EventHide]
       ∧ showStateMap (world_of (visibilityEffect id refs props show) w) !! id = None
       ∧ autoUpdateCleanerMap (world_of (visibilityEffect id refs props show) w) !! id
         = None)
  ∧ (show = false → autoUpdateCleanerMap w !! id = None →
     log_of (visibilityEffect id refs props show) w = []
     ∧ world_of (visibilityEffect id refs props show) w = w).
Proof.
  unfold log_of, world_of.
  destruct (visibilityEffect_cases id refs show w)
    as [(Hs & r & f & Hr & Hf & -> & Hm)
       | [(Hs & Hh & -> & Hm & d & Hd) | (Hs & Hh)]].
  - rewrite (visibilityEffect_show id refs props w r f Hr Hf Hm).
    split; [split; [| intros (? & _); discriminate] |].
    { destruct (negb (is_false (props_autoUpdate props))
                && negb (defined (autoUpdateCleanerMap w !! id))); cbn; log_solver. }
    split; [intros (? & _); discriminate | intros ?; discriminate].
  - rewrite (visibilityEffect_hide id refs props w d Hm Hd). cbn.
    split; [split; [intros _; rewrite Hd; eauto | log_solver] |].
    split.
    + intros _. exists d. rewrite !lookup_delete_eq. auto.
    + intros _ Hn. congruence.
  - rewrite (visibilityEffect_idle id refs props show w Hs Hh). cbn.
    split; [split; [log_solver |] |].
    { intros (-> & Hm & [d Hd]). unfold hide_transition_guard in Hh.
      rewrite Hm, Hd in Hh. discriminate. }
    split; [| auto].
    intros (-> & Hm & [d Hd]). unfold hide_transition_guard in Hh.
    rewrite Hm, Hd in Hh. discriminate.
Qed.

(** *** Runs of the effect, one after the other *)

Lemma mbind_normal {A B} (f : A → M B) (m : M A) w a w1 t1 :
  m w = (Normal a, w1, t1) →
  (m ≫= f) w = (let '(r, w2, t2) := f a w1 in (r, w2, t1 ++ t2)).
Proof. intros H. unfold mbind, M_bind. rewrite H. reflexivity. Qed.

(** Calling the previous cleanup touches neither map. *)
Lemma rerun_eq id cleanup r w :
  rerun id cleanup r w
  = (let '(o, w', t) :=
       visibilityEffect id (render_refs r) (render_props r) (render_show r) w in
     (o, w', (match cleanup with Some d => [CallDispose d] | None => [] end) ++ t)).
Proof.
  unfold rerun. destruct cleanup as [d|];
    (erewrite mbind_normal; [| reflexivity]); reflexivity.
Qed.

(** Marked without a cleaner: every later run is idle. *)
Lemma lifecycle_stuck id w :
  marked (showStateMap w !! id) = true →
  autoUpdateCleanerMap w !! id = None →
  ∀ rs, lifecycle id None rs w = (Normal None, w, []).
Proof.
  intros Hm Hc rs. induction rs as [|r rs IH]; [reflexivity|].
  cbn [lifecycle]. erewrite mbind_normal.
  2:{ rewrite rerun_eq, visibilityEffect_idle; [rewrite Hc; reflexivity | |].
      - unfold show_transition_guard. rewrite Hm. by rewrite andb_false_r.
      - unfold hide_transition_guard. rewrite Hc. by rewrite andb_false_r. }
  rewrite IH. reflexivity.
Qed.

(** With [autoUpdate] false no run calls the engine's [autoUpdate]. *)
Lemma no_autoUpdate_call id refs props show w d :
  is_false (props_autoUpdate props) = true →
  CallAutoUpdate d ∉ log_of (visibilityEffect id refs props show) w.
Proof.
  intros Hau Hin. unfold log_of in Hin.
  destruct (visibilityEffect_cases id refs show w)
    as [(Hs & r & f & Hr & Hf & -> & Hm)
       | [(Hs & Hh & -> & Hm & d' & Hd) | (Hs & Hh)]].
  - rewrite (visibilityEffect_show id refs props w r f Hr Hf Hm), Hau in Hin.
    cbn in Hin. log_solver.
  - rewrite (visibilityEffect_hide id refs props w d' Hm Hd) in Hin.
    cbn in Hin. log_solver.
  - rewrite (visibilityEffect_idle id refs props show w Hs Hh) in Hin.
    cbn in Hin. log_solver.
Qed.

(** C10. With [autoUpdate] false, on an instance with no entry in either
    map, the run that shows it sets the shown entry and calls [events.show]
    and nothing else: no cleaner is stored, and no run with [autoUpdate]
    false ever calls the engine's [autoUpdate].  From then on every run of
    the effect, whatever it is given and hence every one with [show] false,
    logs nothing and leaves both maps as they are: [events.hide] is never
    called and the shown entry stays. *)
Theorem autoUpdate_false_never_hides
    (id : nat) (refs : Refs) (props : FloatProps) (w : World) (rs : list Render) :
  props_autoUpdate props = VBool false →
  attached refs = true →
  marked (showStateMap w !! id) = false →
  autoUpdateCleanerMap w !! id = None →
  ∃ w1,
    visibilityEffect id refs props true w
    = (Normal None, w1, [ShowStateSet id true; EventShow])
    ∧ showStateMap w1 !! id = Some true
    ∧ autoUpdateCleanerMap w1 !! id = None
    ∧ (∀ refs' show' w' d,
         CallAutoUpdate d ∉ log_of (visibilityEffect id refs' props show') w')
    ∧ lifecycle id None rs w1 = (Normal None, w1, [])
    ∧ (EventHide ∉ log_of (lifecycle id None rs) w1)
    ∧ showStateMap (world_of (lifecycle id None rs) w1) !! id = Some true.
Proof.
  intros Hau Ha Hm Hc.
  destruct (attached_inv _ Ha) as (r & f & Hr & Hf).
  eexists. rewrite (visibilityEffect_show id refs props w r f Hr Hf Hm).
  rewrite Hau, Hc. cbn.
  split; [reflexivity|].
  split; [apply lookup_insert_eq|].
  split; [exact Hc|].
  split; [intros; apply no_autoUpdate_call; by rewrite Hau|].
  unfold log_of, world_of.
  rewrite lifecycle_stuck; cbn; [| by rewrite lookup_insert_eq | done].
  split; [reflexivity|]. split; [log_solver | apply lookup_insert_eq].
Qed.

(** *** The subscription invariant *)

(** One more run keeps the maps settled, when [show] has changed since the
    run before and [autoUpdate] is not false. *)
Lemma rerun_settled id cleanup prev r w :
  settled id prev w →
  render_show r ≠ render_show prev →
  autoUpdate_enabled r →
  ∃ c w' t, rerun id cleanup r w = (Normal c, w', t) ∧ settled id r w'.
Proof.
  unfold settled, autoUpdate_enabled. intros [Hagree Hprev] Hchg Hau.
  rewrite rerun_eq.
  destruct (visibilityEffect_cases id (render_refs r) (render_show r) w)
    as [(Hs & e & f & Hr & Hf & Hshow & Hm)
       | [(Hs & Hh & Hshow & Hm & d & Hd) | (Hs & Hh)]].
  - destruct (show_guard_inv _ _ _ _ Hs) as (Ha & _ & _).
    rewrite Hshow in *.
    rewrite (visibilityEffect_show id _ (render_props r) w e f Hr Hf Hm).
    rewrite Hm in Hagree. rewrite <- Hagree, Hau. cbn.
    do 3 eexists. split; [reflexivity|]. cbn.
    rewrite !lookup_insert_eq, Ha. auto.
  - rewrite Hshow in *.
    rewrite (visibilityEffect_hide id _ (render_props r) w d Hm Hd).
    do 3 eexists. split; [reflexivity|]. cbn.
    rewrite !lookup_delete_eq. auto.
  - rewrite (visibilityEffect_idle id _ (render_props r) _ w Hs Hh).
    do 3 eexists. split; [reflexivity|]. split; [exact Hagree|].
    unfold show_transition_guard, hide_transition_guard in *.
    rewrite Hagree in *.
    destruct (render_show r), (render_show prev),
      (defined (autoUpdateCleanerMap w !! id)), (attached (render_refs r));
      cbn in *; congruence.
Qed.

Lemma last_cons {A} (rs : list A) (r d : A) :
  List.last (r :: rs) d = List.last rs r.
Proof.
  revert r d. induction rs as [|a rs IH]; intros r d; [reflexivity|].
  change (List.last (r :: a :: rs) d) with (List.last (a :: rs) d).
  rewrite !IH. reflexivity.
Qed.

Lemma lifecycle_settled id rs :
  ∀ prev cleanup w,
    settled id prev w →
    deps_changed (render_show prev) rs →
    Forall autoUpdate_enabled rs →
    ∃ c w' t, lifecycle id cleanup rs w = (Normal c, w', t)
              ∧ settled id (List.last rs prev) w'.
Proof.
  induction rs as [|r rs IH]; intros prev cleanup w Hset Hdeps Hau.
  - do 3 eexists. split; [reflexivity | exact Hset].
  - destruct Hdeps as [Hchg Hdeps]. apply Forall_cons in Hau as [Hr Hau].
    destruct (rerun_settled id cleanup prev r w Hset Hchg Hr)
      as (c & w1 & t1 & Hrun & Hset1).
    destruct (IH r c w1 Hset1 Hdeps Hau) as (c' & w' & t' & Hrest & Hset').
    cbn [lifecycle]. rewrite (mbind_normal _ _ _ _ _ _ Hrun), Hrest.
    do 3 eexists. split; [reflexivity|].
    rewrite last_cons. exact Hset'.
Qed.

(** C2, as stated, fails: an instance with [autoUpdate] false, both handles
    attached and [show] true has, after the effect has run from empty maps,
    no cleaner entry. *)
Lemma subscription_iff_shown_attached_fails :
  ¬ (subscribed 7 (world_of (lifecycle 7 None [unsubscribed_render]) empty_world)
     ↔ shown_and_attached unsubscribed_render).
Proof.
  intros [_ H]. destruct H as [d Hd]; [split; reflexivity|].
  vm_compute in Hd. discriminate.
Qed.

(** C2, amended.  For an instance that starts with no entry in either map,
    whose effect runs first at mount and then again whenever [show] has
    changed, and whose [autoUpdate] prop is never false: after each run no
    exception was thrown and a cleaner entry exists for the instance's id
    exactly when, at that run, [show] is true and both handles are
    attached. *)
Theorem subscription_iff_shown_attached
    (id : nat) (w : World) (r : Render) (rs : list Render) :
  fresh id w →
  runs_on_change (r :: rs) →
  Forall autoUpdate_enabled (r :: rs) →
  (∃ c, outcome_of (lifecycle id None (r :: rs)) w = Normal c)
  ∧ (subscribed id (world_of (lifecycle id None (r :: rs)) w)
     ↔ shown_and_attached (List.last rs r)).
Proof.
  intros [Hs Hc] Hdeps Hau.
  pose (prev := {| render_refs := {| reference_current := None;
                                     floating_current := None |};
                   render_props := render_props r;
                   render_show := negb (render_show r) |}).
  destruct (lifecycle_settled id (r :: rs) prev None w)
    as (c & w' & t & Hrun & Hagree & Hlast).
  - unfold settled. rewrite Hs, Hc. cbn. by rewrite andb_false_r.
  - split; [cbn; by destruct (render_show r) | exact Hdeps].
  - exact Hau.
  - unfold outcome_of, world_of, subscribed, shown_and_attached.
    rewrite Hrun. cbn [fst snd]. split; [eauto|].
    rewrite last_cons in Hlast.
    destruct (autoUpdateCleanerMap w' !! id) as [d|];
      destruct (render_show (List.last rs r)),
        (attached (render_refs (List.last rs r)));
      cbn in Hlast; try discriminate; split;
      first [ intros [? ?]; discriminate | intros [? ?]; done
            | intros _; eauto ].
Qed.

(** *** The theorems at concrete instances *)

Lemma show_transition_witness :
  (attached both_refs = true ∧ true = true
   ∧ marked (showStateMap empty_world !! 7%nat) = false)
  ∧ ∃ d, log_of (visibilityEffect 7 both_refs requesting_props true) empty_world
         = [ShowStateSet 7 true; EventShow; CallAutoUpdate d; CleanerSet 7 d].
Proof.
  assert (Hg : attached both_refs = true ∧ true = true
               ∧ marked (showStateMap empty_world !! 7%nat) = false)
    by (repeat split).
  split; [exact Hg|].
  destruct (show_transition 7 both_refs requesting_props true empty_world)
    as (_ & Hshow & _).
  destruct (Hshow Hg) as (d & Hlog & _).
  exists d. exact Hlog.
Defined.

Lemma autoUpdate_false_witness :
  ∃ w1,
    visibilityEffect 7 both_refs autoUpdate_off_props true empty_world
    = (Normal None, w1, [ShowStateSet 7 true; EventShow])
    ∧ lifecycle 7 None [hiding_render; showing_render; hiding_render] w1
      = (Normal None, w1, []).
Proof.
  destruct (autoUpdate_false_never_hides 7 both_refs autoUpdate_off_props
              empty_world [hiding_render; showing_render; hiding_render])
    as (w1 & Hshow & _ & _ & _ & Hrest & _); try reflexivity.
  exists w1. split; [exact Hshow | exact Hrest].
Defined.

Lemma subscription_witness :
  (fresh 7 empty_world
   ∧ runs_on_change [showing_render; hiding_render]
   ∧ Forall autoUpdate_enabled [showing_render; hiding_render])
  ∧ (subscribed 7
       (world_of (lifecycle 7 None [showing_render; hiding_render]) empty_world)
     ↔ shown_and_attached hiding_render).
Proof.
  assert (Hfresh : fresh 7 empty_world) by (split; reflexivity).
  assert (Hdeps : runs_on_change [showing_render; hiding_render])
    by (split; [discriminate | exact I]).
  assert (Hau : Forall autoUpdate_enabled [showing_render; hiding_render])
    by (repeat constructor).
  split; [auto|].
  exact (proj2 (subscription_iff_shown_attached 7 empty_world showing_render
                  [hiding_render] Hfresh Hdeps Hau)).
Defined.

(** *** The callback given to the engine *)

(** [updateFloating] recomputes first and calls [events.update] next. *)
Lemma updateFloating_order w :
  updateFloating w = (Normal tt, w, [CallUpdate; EventUpdate]).
Proof. reflexivity. Qed.

(** What [autoUpdate] receives is [updateFloating] throttled with 16 ms. *)
Lemma autoUpdate_callback r f props :
  sub_callback (disposer_of r f props) = throttle UpdateFloating 16
  ∧ throttled_wait (sub_callback (disposer_of r f props)) = 16.
Proof. split; reflexivity. Qed.

End LifecycleFacts.

(** ** The transition callbacks *)

Module TransitionFacts.
Import TransitionBridge Examples.

(** C6, as stated, fails: from [show = false], the callback that precedes
    the entering animation has already set [show] to true, and the end of
    that animation sets nothing. *)
Lemma shown_not_committed_after_enter :
  show (fire BeforeEnter (transitionProps requesting_props hidden_state) hidden_state)
  = true
  ∧ show (fire AfterEnter (transitionProps requesting_props hidden_state) hidden_state)
    ≠ true.
Proof. split; [reflexivity | discriminate]. Qed.

(** C6, amended.  Once the root is mounted its [show] state changes in two
    callbacks of the transition primitive and nowhere else: [beforeEnter],
    called before the entering animation starts, sets it to true, and
    [afterLeave], called when the leaving animation has completed, sets it
    to false; a render with new props, whatever visibility they request,
    the mount effect and the other two moments of the primitive leave it as
    it is. *)
Theorem shown_committed_in_callbacks (props : FloatProps) (e : Event) (st : State) :
  show (step props e st).2
  = match e with
    | Fired BeforeEnter => true
    | Fired AfterLeave => false
    | Fired AfterEnter | Fired BeforeLeave | MountEffect | Rerendered _ => show st
    end.
Proof. destruct e as [props' | | []]; reflexivity. Qed.

(** Before any callback the state is what the first props request. *)
Lemma initial_show props :
  show (initial_state props) = default false (props_show props).
Proof. unfold initial_state. destruct (props_show props); reflexivity. Qed.

End TransitionFacts.

(** ** The arrow *)

Module ArrowFacts.
Import ArrowComponent.

Lemma staticSide_opposite p :
  staticSide p = Some (side_string (opposite (side_of p))).
Proof. destruct p; vm_compute; reflexivity. Qed.

Section Numbers.
Context {Num : JsNumber}.

(** C8. For each of the twelve placements the key that [Arrow] computes is
    the side across from the placement's side, and the style holds under it
    the string of the negated stand-off distance ([props.offset], or 4)
    followed by [px]; under the cross-axis key ([left] above and below,
    [top] beside) it holds the string of the coordinate of the last
    positioning pass ([x] for [left], [y] for [top]) followed by [px] when
    that is a number, and the empty string otherwise.  The four keys of the
    style are then as listed.  This holds for every kind of number and
    every way of printing one. *)
Theorem arrow_style (p : Placement) (x y offset : option number) :
  let standoff :=
    (number_toString (number_negate (default (number_literal 4) offset))
     ++ "px")%string in
  let from (c : option number) :=
    match c with
    | Some n => (number_toString n ++ "px")%string
    | None => EmptyString
    end in
  staticSide p = Some (side_string (opposite (side_of p)))
  ∧ style p x y offset !! side_string (opposite (side_of p)) = Some standoff
  ∧ style p x y offset !! cross_key (side_of p)
    = Some (from (cross_coordinate (side_of p) x y))
  ∧ style p x y offset !! "left"
    = Some (match side_of p with SideRight => standoff | _ => from x end)
  ∧ style p x y offset !! "top"
    = Some (match side_of p with SideBottom => standoff | _ => from y end)
  ∧ style p x y offset !! "right"
    = Some (match side_of p with SideLeft => standoff | _ => EmptyString end)
  ∧ style p x y offset !! "bottom"
    = Some (match side_of p with SideTop => standoff | _ => EmptyString end).
Proof.
  cbn zeta. split; [apply staticSide_opposite|].
  unfold style, px. rewrite staticSide_opposite, times_minus_one.
  destruct p; cbn [computed_key default side_of opposite side_string
                   cross_key cross_coordinate];
    repeat split; by simplify_map_eq.
Qed.

(** C9. Where the lookup yields no arrow state (no provider around the
    component, or one whose value is [null]) it throws an error whose
    message names the component and the missing [<Float />] parent, and so
    does [Arrow]; directly inside a Float, which provides its arrow state,
    the lookup returns that state and [Arrow] its style. *)
Theorem arrow_requires_float
    (component : string) (api : ArrowState)
    (providers : list (option ArrowState)) (offset : option number) :
  useArrowContext component []
  = Thrown ("<" ++ component ++ " /> is missing a parent <Float /> component.")%string
  ∧ useArrowContext component (None :: providers)
    = Thrown ("<" ++ component ++ " /> is missing a parent <Float /> component.")%string
  ∧ Arrow offset []
    = Thrown ("<Float.Arrow /> is missing a parent "
              ++ "<Float />" ++ " component.")%string
  ∧ useArrowContext component (provide api providers) = Normal api
  ∧ Arrow offset (provide api providers)
    = Normal (style (placement api) (x api) (y api) offset).
Proof.
  repeat split.
Qed.

End Numbers.

(** The style for [right-start] with the arrow at [y = 7], in integers:
    [left] holds the stand-off and [top] the coordinate. *)
Example right_start_style :
  map_to_list (style (Num := integers) RightStart None (Some 7) None)
  ≡ₚ [("left", "-4px"); ("top", "7px"); ("right", EmptyString);
      ("bottom", EmptyString)].
Proof. vm_compute. by apply (Permutation_app_comm [_; _] [_; _]). Qed.

End ArrowFacts.

(** ** More on the life cycle *)

Module LifecycleMore.
Import Lifecycle LifecycleFacts Traces Examples.

(** A run of the effect ends normally, with the cleaner it leaves stored. *)
Lemma visibilityEffect_eta id refs props show w :
  visibilityEffect id refs props show w
  = (Normal (autoUpdateCleanerMap
               (world_of (visibilityEffect id refs props show) w) !! id),
     world_of (visibilityEffect id refs props show) w,
     log_of (visibilityEffect id refs props show) w).
Proof.
  unfold world_of, log_of.
  destruct (visibilityEffect_cases id refs show w)
    as [(Hs & r & f & Hr & Hf & -> & Hm)
       | [(Hs & Hh & -> & Hm & d & Hd) | (Hs & Hh)]].
  - rewrite (visibilityEffect_show id refs props w r f Hr Hf Hm).
    destruct (negb (is_false (props_autoUpdate props))
              && negb (defined (autoUpdateCleanerMap w !! id))); cbn;
      [rewrite lookup_insert_eq|]; reflexivity.
  - rewrite (visibilityEffect_hide id refs props w d Hm Hd). cbn.
    rewrite lookup_delete_eq. reflexivity.
  - rewrite (visibilityEffect_idle id refs props show w Hs Hh). reflexivity.
Qed.

(** X2. Called on its own, [clearAutoUpdate] throws exactly when no cleaner
    is stored for the instance, and then before anything is deleted: the
    maps are as they were and nothing is logged.  With a cleaner stored it
    calls it and then deletes its entry, and the shown map is not touched. *)
Theorem clearAutoUpdate_throws_without_cleaner (id : nat) (w : World) :
  ((∃ msg, outcome_of (clearAutoUpdate id) w = Thrown msg)
   ↔ autoUpdateCleanerMap w !! id = None)
  ∧ (autoUpdateCleanerMap w !! id = None →
     world_of (clearAutoUpdate id) w = w ∧ log_of (clearAutoUpdate id) w = [])
  ∧ (∀ d, autoUpdateCleanerMap w !! id = Some d →
     log_of (clearAutoUpdate id) w = [CallDispose d; CleanerDelete id]
     ∧ autoUpdateCleanerMap (world_of (clearAutoUpdate id) w)
       = delete id (autoUpdateCleanerMap w)
     ∧ showStateMap (world_of (clearAutoUpdate id) w) = showStateMap w).
Proof.
  unfold outcome_of, world_of, log_of, clearAutoUpdate.
  unfold_effect. cbn.
  destruct (autoUpdateCleanerMap w !! id) as [d|]; cbn.
  - split; [split; [intros [msg ?]; discriminate | discriminate] |].
    split; [discriminate|]. intros d' [= <-]. auto.
  - split; [split; eauto |]. split; [auto | discriminate].
Qed.

(** *** Runs in a row *)

Lemma lifecycle_cons id c r rs w :
  lifecycle id c (r :: rs) w
  = (let w1 := world_of (visibilityEffect id (render_refs r) (render_props r)
                           (render_show r)) w in
     let '(o, w2, t2) := lifecycle id (autoUpdateCleanerMap w1 !! id) rs w1 in
     (o, w2,
      (cleanup_log c
       ++ log_of (visibilityEffect id (render_refs r) (render_props r)
                    (render_show r)) w) ++ t2)).
Proof.
  cbn [lifecycle]. erewrite mbind_normal.
  2:{ rewrite rerun_eq, visibilityEffect_eta. reflexivity. }
  unfold cleanup_log. destruct c; reflexivity.
Qed.

(** What every run of the effect keeps, the whole life keeps; and no run
    throws. *)
Lemma lifecycle_keeps id (P : World → Prop) :
  (∀ refs props show w,
     P w → P (world_of (visibilityEffect id refs props show) w)) →
  ∀ rs c w,
    P w →
    P (world_of (lifecycle id c rs) w)
    ∧ ∃ c', outcome_of (lifecycle id c rs) w = Normal c'.
Proof.
  intros Hstep rs. induction rs as [|r rs IH]; intros c w HP.
  - split; [exact HP | by exists c].
  - unfold world_of, outcome_of in *. rewrite lifecycle_cons. cbn zeta.
    specialize (IH (autoUpdateCleanerMap
                      (world_of (visibilityEffect id (render_refs r)
                         (render_props r) (render_show r)) w) !! id)
                   _ (Hstep (render_refs r) (render_props r) (render_show r) w HP)).
    unfold world_of in *.
    destruct (lifecycle id _ rs _) as [[o w2] t2]. exact IH.
Qed.

Lemma visibilityEffect_other id id' refs props show w :
  id ≠ id' →
  showStateMap (world_of (visibilityEffect id refs props show) w) !! id'
  = showStateMap w !! id'
  ∧ autoUpdateCleanerMap (world_of (visibilityEffect id refs props show) w) !! id'
    = autoUpdateCleanerMap w !! id'.
Proof.
  intros Hne. unfold world_of.
  destruct (visibilityEffect_cases id refs show w)
    as [(Hs & r & f & Hr & Hf & -> & Hm)
       | [(Hs & Hh & -> & Hm & d & Hd) | (Hs & Hh)]].
  - rewrite (visibilityEffect_show id refs props w r f Hr Hf Hm).
    destruct (negb (is_false (props_autoUpdate props))
              && negb (defined (autoUpdateCleanerMap w !! id))); cbn;
      rewrite ?lookup_insert_ne by done; auto.
  - rewrite (visibilityEffect_hide id refs props w d Hm Hd). cbn.
    rewrite !lookup_delete_ne by done. auto.
  - rewrite (visibilityEffect_idle id refs props show w Hs Hh). auto.
Qed.

(** X3. The effect of one instance, over any series of runs, leaves the
    entries of every other instance in both maps as they were. *)
Theorem lifecycle_leaves_other_instances
    (id id' : nat) (cleanup : option Disposer) (rs : list Render) (w : World) :
  id ≠ id' →
  showStateMap (world_of (lifecycle id cleanup rs) w) !! id'
  = showStateMap w !! id'
  ∧ autoUpdateCleanerMap (world_of (lifecycle id cleanup rs) w) !! id'
    = autoUpdateCleanerMap w !! id'.
Proof.
  intros Hne.
  apply (lifecycle_keeps id
           (λ w', showStateMap w' !! id' = showStateMap w !! id'
                  ∧ autoUpdateCleanerMap w' !! id'
                    = autoUpdateCleanerMap w !! id')); [|auto].
  intros refs props show w' [H1 H2].
  destruct (visibilityEffect_other id id' refs props show w' Hne) as [-> ->].
  auto.
Qed.

Lemma lifecycle_leaves_other_instances_witness :
  7%nat ≠ 8%nat
  ∧ showStateMap
      (world_of (lifecycle 8 None [showing_render; hiding_render]) shown_world)
    !! 7%nat = Some true.
Proof.
  assert (Hne : 8%nat ≠ 7%nat) by discriminate.
  split; [discriminate|].
  rewrite (proj1 (lifecycle_leaves_other_instances 8 7 None
                    [showing_render; hiding_render] shown_world Hne)).
  reflexivity.
Defined.

Lemma visibilityEffect_consistent id refs props show w :
  consistent id w →
  consistent id (world_of (visibilityEffect id refs props show) w).
Proof.
  unfold consistent, world_of. intros [Himp Hnf].
  destruct (visibilityEffect_cases id refs show w)
    as [(Hs & r & f & Hr & Hf & -> & Hm)
       | [(Hs & Hh & -> & Hm & d & Hd) | (Hs & Hh)]].
  - rewrite (visibilityEffect_show id refs props w r f Hr Hf Hm).
    destruct (negb (is_false (props_autoUpdate props))
              && negb (defined (autoUpdateCleanerMap w !! id))); cbn;
      rewrite !lookup_insert_eq; (split; [auto | discriminate]).
  - rewrite (visibilityEffect_hide id refs props w d Hm Hd). cbn.
    rewrite !lookup_delete_eq. split; [intros [? ?]|]; discriminate.
  - rewrite (visibilityEffect_idle id refs props show w Hs Hh). auto.
Qed.

(** X4. Over any series of runs of the effect in which the engine's
    functions and the callbacks return, whatever refs and visibility each
    run sees, a cleaner is stored for the instance only while the shown map
    marks it, and the mark is never [false], provided this held at the
    start (as it does with no entries). *)
Theorem lifecycle_keeps_maps_consistent
    (id : nat) (cleanup : option Disposer) (rs : list Render) (w : World) :
  consistent id w →
  consistent id (world_of (lifecycle id cleanup rs) w).
Proof.
  intros Hc.
  apply (proj1 (lifecycle_keeps id (consistent id)
                  (λ refs props show w', visibilityEffect_consistent
                                           id refs props show w')
                  rs cleanup w Hc)).
Qed.

Lemma lifecycle_keeps_maps_consistent_witness :
  consistent 7 empty_world
  ∧ consistent 7
      (world_of (lifecycle 7 None [showing_render; unsubscribed_render;
                                   hiding_render]) empty_world).
Proof.
  assert (Hc : consistent 7 empty_world).
  { unfold consistent. cbn. rewrite !lookup_empty.
    split; [intros [? ?]|]; discriminate. }
  split; [exact Hc|].
  exact (lifecycle_keeps_maps_consistent 7 None
           [showing_render; unsubscribed_render; hiding_render]
           empty_world Hc).
Defined.

(** X5. Showing an instance that has no entries (handles attached,
    [autoUpdate] not false) and then hiding it puts both maps back exactly
    as they were.  In between, the disposer that [autoUpdate] returned is
    called twice: once as the cleanup of the showing run, once again by the
    hiding run itself, before [events.hide]. *)
Theorem show_then_hide_restores
    (id : nat) (w : World) (s h : Render) :
  fresh id w →
  shown_and_attached s →
  autoUpdate_enabled s →
  render_show h = false →
  ∃ d,
    lifecycle id None [s; h] w
    = (Normal None, w,
       [ShowStateSet id true; EventShow; CallAutoUpdate d; CleanerSet id d;
        CallDispose d;
        ShowStateDelete id; CallDispose d; CleanerDelete id; EventHide]).
Proof.
  intros [Hs Hc] [Hshow Ha] Hau Hh.
  destruct s as [refs props show]. destruct h as [refs' props' show'].
  unfold autoUpdate_enabled in Hau. cbn in Hshow, Ha, Hau, Hh. subst show show'.
  destruct (attached_inv _ Ha) as (r & f & Hr & Hf).
  assert (Hm : marked (showStateMap w !! id) = false) by (by rewrite Hs).
  exists (disposer_of r f props).
  rewrite lifecycle_cons. cbn [render_refs render_props render_show].
  unfold world_of, log_of.
  rewrite (visibilityEffect_show id refs props w r f Hr Hf Hm), Hau, Hc.
  cbn [negb andb defined fst snd]. cbn zeta.
  rewrite lifecycle_cons. cbn [render_refs render_props render_show].
  unfold world_of, log_of.
  rewrite (visibilityEffect_hide id refs' props' _ (disposer_of r f props));
    cbn; rewrite ?lookup_insert_eq; try reflexivity.
  rewrite !delete_insert_id by assumption.
  rewrite Hc. destruct w; reflexivity.
Qed.

Lemma show_then_hide_restores_witness :
  ∃ d,
    lifecycle 7 None [showing_render; hiding_render] empty_world
    = (Normal None, empty_world,
       [ShowStateSet 7 true; EventShow; CallAutoUpdate d; CleanerSet 7 d;
        CallDispose d;
        ShowStateDelete 7; CallDispose d; CleanerDelete 7; EventHide]).
Proof.
  apply (show_then_hide_restores 7 empty_world showing_render hiding_render).
  - split; reflexivity.
  - split; reflexivity.
  - reflexivity.
  - reflexivity.
Defined.

(** *** The order of the callbacks *)

Lemma shown_after_app b l1 l2 :
  shown_after b (l1 ++ l2) = shown_after (shown_after b l1) l2.
Proof.
  revert b. induction l1 as [|a l1 IH]; intros b; [reflexivity|].
  destruct a; cbn; apply IH.
Qed.

Lemma alternates_app b l1 l2 :
  alternates b l1 → alternates (shown_after b l1) l2 → alternates b (l1 ++ l2).
Proof.
  revert b. induction l1 as [|a l1 IH]; intros b H1 H2; [exact H2|].
  destruct a; cbn in *; try (apply IH; assumption);
    destruct H1 as [-> H1]; (split; [reflexivity | apply IH; assumption]).
Qed.

Lemma visibilityEffect_alternates id refs props show w :
  alternates (marked (showStateMap w !! id))
    (log_of (visibilityEffect id refs props show) w)
  ∧ marked (showStateMap (world_of (visibilityEffect id refs props show) w) !! id)
    = shown_after (marked (showStateMap w !! id))
        (log_of (visibilityEffect id refs props show) w).
Proof.
  unfold world_of, log_of.
  destruct (visibilityEffect_cases id refs show w)
    as [(Hs & r & f & Hr & Hf & -> & Hm)
       | [(Hs & Hh & -> & Hm & d & Hd) | (Hs & Hh)]].
  - rewrite (visibilityEffect_show id refs props w r f Hr Hf Hm), Hm.
    destruct (negb (is_false (props_autoUpdate props))
              && negb (defined (autoUpdateCleanerMap w !! id))); cbn;
      rewrite lookup_insert_eq; auto.
  - rewrite (visibilityEffect_hide id refs props w d Hm Hd), Hm. cbn.
    rewrite lookup_delete_eq. auto.
  - rewrite (visibilityEffect_idle id refs props show w Hs Hh). cbn. auto.
Qed.

Lemma cleanup_log_neutral c b l :
  (alternates b (cleanup_log c ++ l) ↔ alternates b l)
  ∧ shown_after b (cleanup_log c ++ l) = shown_after b l.
Proof. destruct c; cbn; split; reflexivity. Qed.

(** X6. Over any series of runs of the effect, whatever each is given, the
    calls of [events.show] and [events.hide] take turns: [events.show] is
    called only while the instance is not marked shown, [events.hide] only
    while it is, so neither is ever called twice in a row; and at the end
    the shown map marks the instance exactly when the last of these calls
    was [events.show] (or, with no call at all, when it was marked before). *)
Theorem show_and_hide_take_turns
    (id : nat) (cleanup : option Disposer) (rs : list Render) (w : World) :
  alternates (marked (showStateMap w !! id)) (log_of (lifecycle id cleanup rs) w)
  ∧ marked (showStateMap (world_of (lifecycle id cleanup rs) w) !! id)
    = shown_after (marked (showStateMap w !! id))
        (log_of (lifecycle id cleanup rs) w).
Proof.
  revert cleanup w. induction rs as [|r rs IH]; intros cleanup w.
  - cbn. auto.
  - unfold log_of, world_of in *. rewrite lifecycle_cons. cbn zeta.
    destruct (visibilityEffect_alternates id (render_refs r) (render_props r)
                (render_show r) w) as [Halt Hmark].
    specialize (IH (autoUpdateCleanerMap
                      (world_of (visibilityEffect id (render_refs r)
                         (render_props r) (render_show r)) w) !! id)
                   (world_of (visibilityEffect id (render_refs r)
                      (render_props r) (render_show r)) w)).
    unfold log_of, world_of in *.
    destruct (lifecycle id _ rs _) as [[o w2] t2]. cbn [fst snd] in *.
    destruct IH as [IHalt IHmark]. rewrite Hmark in IHalt, IHmark.
    rewrite shown_after_app.
    rewrite (proj2 (cleanup_log_neutral cleanup _ _)).
    split; [|exact IHmark].
    apply alternates_app.
    + apply (proj1 (cleanup_log_neutral cleanup _ _)). exact Halt.
    + rewrite (proj2 (cleanup_log_neutral cleanup _ _)). exact IHalt.
Qed.

(** X7. With both handles attached, [autoUpdate] not false and no cleaner
    stored, [startAutoUpdate] calls the engine's [autoUpdate] once, with the
    two elements, [updateFloating] throttled at 16 ms, and [props.autoUpdate]
    as options when that is an object ([undefined] otherwise), and then
    stores the disposer it got under the instance's id; the shown map is not
    touched.  In every other case it does nothing at all.  Called a second
    time right after, it never does anything. *)
Theorem startAutoUpdate_subscribes_once
    (id : nat) (refs : Refs) (props : FloatProps) (w : World) :
  (∀ r f,
     reference_current refs = Some r → floating_current refs = Some f →
     is_false (props_autoUpdate props) = false →
     autoUpdateCleanerMap w !! id = None →
     let d := {| sub_reference := r; sub_floating := f;
                 sub_callback := {| throttled_fn := UpdateFloating;
                                    throttled_wait := 16 |};
                 sub_options :=
                   match props_autoUpdate props with
                   | VObj o => VObj o
                   | VNull => VNull
                   | VRef n => VRef n
                   | _ => VUndefined
                   end |} in
     startAutoUpdate id refs props w
     = (Normal tt,
        {| autoUpdateCleanerMap := <[id := d]> (autoUpdateCleanerMap w);
           showStateMap := showStateMap w |},
        [CallAutoUpdate d; CleanerSet id d]))
  ∧ (attached refs = false ∨ is_false (props_autoUpdate props) = true
     ∨ is_Some (autoUpdateCleanerMap w !! id) →
     startAutoUpdate id refs props w = (Normal tt, w, []))
  ∧ startAutoUpdate id refs props (world_of (startAutoUpdate id refs props) w)
    = (Normal tt, world_of (startAutoUpdate id refs props) w, []).
Proof.
  unfold world_of, startAutoUpdate, attached. unfold_effect. cbn.
  split; [|split].
  - intros r f -> -> Hau Hc. rewrite Hau, Hc. cbn.
    destruct (props_autoUpdate props); reflexivity.
  - destruct (reference_current refs) as [r|], (floating_current refs) as [f|];
      cbn; try reflexivity.
    intros [H | [H | [d H]]]; [discriminate | rewrite H; reflexivity |].
    rewrite H. cbn. rewrite andb_false_r. reflexivity.
  - destruct (reference_current refs) as [r|], (floating_current refs) as [f|];
      cbn; try reflexivity.
    destruct (is_false (props_autoUpdate props)),
      (autoUpdateCleanerMap w !! id) as [d|] eqn:Hd; cbn;
      rewrite ?Hd, ?lookup_insert_eq; cbn; rewrite ?andb_false_r; reflexivity.
Qed.

(** *** The hide transition as React runs it *)

Lemma run_eta {A} (m : M A) w : m w = (outcome_of m w, world_of m w, log_of m w).
Proof. unfold outcome_of, world_of, log_of. by destruct (m w) as [[o w'] t]. Qed.

(** A run on its own is the cleanup of the run before, then the effect. *)
Lemma lifecycle_single id c r w : lifecycle id c [r] w = rerun id c r w.
Proof.
  rewrite lifecycle_cons, rerun_eq, visibilityEffect_eta. cbn.
  rewrite (@app_nil_r Action). unfold cleanup_log. reflexivity.
Qed.

Lemma lifecycle_app id rs1 rs2 :
  ∀ c w,
    lifecycle id c (rs1 ++ rs2) w
    = (let '(o, w1, t1) := lifecycle id c rs1 w in
       match o with
       | Normal c1 =>
           let '(o2, w2, t2) := lifecycle id c1 rs2 w1 in (o2, w2, t1 ++ t2)
       | Thrown msg => (Thrown msg, w1, t1)
       end).
Proof.
  induction rs1 as [|r rs1 IH]; intros c w.
  - cbn. by destruct (lifecycle id c rs2 w) as [[o2 w2] t2].
  - change ((r :: rs1) ++ rs2) with (r :: (rs1 ++ rs2)).
    rewrite !lifecycle_cons. cbn zeta. rewrite IH.
    destruct (lifecycle id _ rs1 _) as [[o w1] t1].
    destruct o as [c1|msg]; [|reflexivity].
    destruct (lifecycle id c1 rs2 w1) as [[o2 w2] t2].
    by rewrite (@app_assoc Action).
Qed.

(** After at least one run, what the runs return is the cleaner stored. *)
Lemma lifecycle_returns_stored id rs :
  ∀ c r0 w,
    outcome_of (lifecycle id c (r0 :: rs)) w
    = Normal (autoUpdateCleanerMap
                (world_of (lifecycle id c (r0 :: rs)) w) !! id).
Proof.
  induction rs as [|r1 rs IH]; intros c r0 w.
  - unfold outcome_of, world_of. rewrite lifecycle_cons. reflexivity.
  - unfold outcome_of, world_of in *. rewrite lifecycle_cons. cbn zeta.
    specialize (IH (autoUpdateCleanerMap
                      (world_of (visibilityEffect id (render_refs r0)
                         (render_props r0) (render_show r0)) w) !! id)
                   r1
                   (world_of (visibilityEffect id (render_refs r0)
                      (render_props r0) (render_show r0)) w)).
    destruct (lifecycle id _ (r1 :: rs) _) as [[o w2] t2]. exact IH.
Qed.

(** The run that follows earlier ones gets as its cleanup the cleaner that
    is stored when they end. *)
Lemma lifecycle_last id r rs c r0 w :
  lifecycle id c ((r0 :: rs) ++ [r]) w
  = (outcome_of
       (rerun id (autoUpdateCleanerMap
                    (world_of (lifecycle id c (r0 :: rs)) w) !! id) r)
       (world_of (lifecycle id c (r0 :: rs)) w),
     world_of
       (rerun id (autoUpdateCleanerMap
                    (world_of (lifecycle id c (r0 :: rs)) w) !! id) r)
       (world_of (lifecycle id c (r0 :: rs)) w),
     log_of (lifecycle id c (r0 :: rs)) w
     ++ log_of
          (rerun id (autoUpdateCleanerMap
                       (world_of (lifecycle id c (r0 :: rs)) w) !! id) r)
          (world_of (lifecycle id c (r0 :: rs)) w)).
Proof.
  rewrite lifecycle_app.
  rewrite (run_eta (lifecycle id c (r0 :: rs))), lifecycle_returns_stored.
  rewrite lifecycle_single.
  by rewrite (run_eta (rerun _ _ _)) at 1.
Qed.

Lemma rerun_hide id r w d :
  render_show r = false →
  marked (showStateMap w !! id) = true →
  autoUpdateCleanerMap w !! id = Some d →
  rerun id (autoUpdateCleanerMap w !! id) r w
  = (Normal None,
     {| autoUpdateCleanerMap := delete id (autoUpdateCleanerMap w);
        showStateMap := delete id (showStateMap w) |},
     [CallDispose d; ShowStateDelete id; CallDispose d; CleanerDelete id;
      EventHide]).
Proof.
  intros Hshow Hm Hd. rewrite rerun_eq, Hshow.
  rewrite (visibilityEffect_hide id _ _ w d Hm Hd), Hd. reflexivity.
Qed.

(** C5, as stated, fails: when a shown instance is hidden, the first thing
    that happens is the call of the disposer, as the cleanup that the
    showing run returned; the shown entry is deleted only after it. *)
Lemma hide_transition_disposes_first :
  log_of (lifecycle 7 None [showing_render; hiding_render]) empty_world
  = [ShowStateSet 7 true; EventShow;
     CallAutoUpdate (disposer_of 0%nat 1%nat requesting_props);
     CleanerSet 7 (disposer_of 0%nat 1%nat requesting_props);
     CallDispose (disposer_of 0%nat 1%nat requesting_props);
     ShowStateDelete 7;
     CallDispose (disposer_of 0%nat 1%nat requesting_props);
     CleanerDelete 7; EventHide].
Proof. vm_compute. reflexivity. Qed.

(** C5, amended.  A run of the effect comes with the cleanup that the run
    before returned, which is the cleaner then stored.  Such a run calls
    [events.hide] exactly when [show] is false, the shown map marks the
    instance and a cleaner is stored.  It then first calls the disposer (the
    cleanup), then deletes the shown entry, calls the disposer a second
    time, deletes the cleaner entry, and calls [events.hide], in this
    order.  With [show] false and no cleaner stored it logs nothing and
    leaves both maps as they were. *)
Theorem hide_transition_after_cleanup (id : nat) (r : Render) (w : World) :
  (∀ c0 r0 rs w0,
     w = world_of (lifecycle id c0 (r0 :: rs)) w0 →
     lifecycle id c0 ((r0 :: rs) ++ [r]) w0
     = (outcome_of (rerun id (autoUpdateCleanerMap w !! id) r) w,
        world_of (rerun id (autoUpdateCleanerMap w !! id) r) w,
        log_of (lifecycle id c0 (r0 :: rs)) w0
        ++ log_of (rerun id (autoUpdateCleanerMap w !! id) r) w))
  ∧ (EventHide ∈ log_of (rerun id (autoUpdateCleanerMap w !! id) r) w
     ↔ render_show r = false ∧ marked (showStateMap w !! id) = true
       ∧ is_Some (autoUpdateCleanerMap w !! id))
  ∧ (render_show r = false ∧ marked (showStateMap w !! id) = true
     ∧ is_Some (autoUpdateCleanerMap w !! id) →
     ∃ d, autoUpdateCleanerMap w !! id = Some d
       ∧ log_of (rerun id (autoUpdateCleanerMap w !! id) r) w
         = [CallDispose d; ShowStateDelete id; CallDispose d;
            CleanerDelete id; EventHide]
       ∧ showStateMap
           (world_of (rerun id (autoUpdateCleanerMap w !! id) r) w) !! id = None
       ∧ autoUpdateCleanerMap
           (world_of (rerun id (autoUpdateCleanerMap w !! id) r) w) !! id = None)
  ∧ (render_show r = false → autoUpdateCleanerMap w !! id = None →
     log_of (rerun id (autoUpdateCleanerMap w !! id) r) w = []
     ∧ world_of (rerun id (autoUpdateCleanerMap w !! id) r) w = w).
Proof.
  split; [intros c0 r0 rs w0 ->; apply lifecycle_last|].
  assert (Hhide : ∀ d,
            render_show r = false → marked (showStateMap w !! id) = true →
            autoUpdateCleanerMap w !! id = Some d →
            log_of (rerun id (autoUpdateCleanerMap w !! id) r) w
            = [CallDispose d; ShowStateDelete id; CallDispose d;
               CleanerDelete id; EventHide]
            ∧ world_of (rerun id (autoUpdateCleanerMap w !! id) r) w
              = {| autoUpdateCleanerMap := delete id (autoUpdateCleanerMap w);
                   showStateMap := delete id (showStateMap w) |}).
  { intros d H1 H2 H3. unfold log_of, world_of.
    rewrite (rerun_hide id r w d H1 H2 H3). auto. }
  split; [split|split].
  - intros Hin. unfold log_of in Hin. rewrite rerun_eq in Hin.
    destruct (visibilityEffect_cases id (render_refs r) (render_show r) w)
      as [(Hs & e & f & Hr & Hf & Hshow & Hm)
         | [(Hs & Hh & Hshow & Hm & d & Hd) | (Hs & Hh)]].
    + rewrite Hshow in Hin.
      rewrite (visibilityEffect_show id _ (render_props r) w e f Hr Hf Hm) in Hin.
      exfalso.
      destruct (autoUpdateCleanerMap w !! id),
        (negb (is_false (props_autoUpdate (render_props r))));
        cbn in Hin; log_solver.
    + rewrite Hd. eauto.
    + rewrite (visibilityEffect_idle id _ (render_props r) _ w Hs Hh) in Hin.
      exfalso. destruct (autoUpdateCleanerMap w !! id); cbn in Hin; log_solver.
  - intros (Hshow & Hm & d & Hd).
    rewrite (proj1 (Hhide d Hshow Hm Hd)). log_solver.
  - intros (Hshow & Hm & d & Hd). exists d.
    destruct (Hhide d Hshow Hm Hd) as [-> ->]. cbn.
    rewrite !lookup_delete_eq. auto.
  - intros Hshow Hc. unfold log_of, world_of. rewrite rerun_eq, Hc, Hshow.
    rewrite visibilityEffect_idle; [auto | |].
    + unfold show_transition_guard. by rewrite andb_false_r.
    + unfold hide_transition_guard. rewrite Hc. by rewrite andb_false_r.
Qed.

Lemma hide_transition_after_cleanup_witness :
  (false = false ∧ marked (showStateMap shown_world !! 7%nat) = true
   ∧ is_Some (autoUpdateCleanerMap shown_world !! 7%nat))
  ∧ ∃ d,
      log_of (rerun 7 (autoUpdateCleanerMap shown_world !! 7%nat) hiding_render)
        shown_world
      = [CallDispose d; ShowStateDelete 7; CallDispose d; CleanerDelete 7;
         EventHide].
Proof.
  assert (Hg : false = false ∧ marked (showStateMap shown_world !! 7%nat) = true
               ∧ is_Some (autoUpdateCleanerMap shown_world !! 7%nat)).
  { split; [reflexivity|]. split; [reflexivity|]. eexists. reflexivity. }
  split; [exact Hg|].
  destruct (hide_transition_after_cleanup 7 hiding_render shown_world)
    as (_ & _ & Hhide & _).
  destruct (Hhide Hg) as (d & _ & Hlog & _).
  exists d. exact Hlog.
Defined.

Lemma startAutoUpdate_subscribes_once_witness :
  startAutoUpdate 7 both_refs requesting_props empty_world
  = (Normal tt,
     {| autoUpdateCleanerMap := {[7%nat := disposer_of 0%nat 1%nat requesting_props]};
        showStateMap := ∅ |},
     [CallAutoUpdate (disposer_of 0%nat 1%nat requesting_props);
      CleanerSet 7 (disposer_of 0%nat 1%nat requesting_props)]).
Proof.
  exact (proj1 (startAutoUpdate_subscribes_once 7 both_refs requesting_props
                  empty_world) 0%nat 1%nat eq_refl eq_refl eq_refl eq_refl).
Defined.

End LifecycleMore.

(** ** More on the pipeline *)

Module PipelineMore.
Import Pipeline PipelineFacts Traces Examples.

Lemma length_optional b m : length (optional b m) = if b then 1%nat else 0%nat.
Proof. destruct b; reflexivity. Qed.

(** X9. The pipeline is as long as the user's middleware plus one entry
    for each of the six features whose guard holds: never shorter than the
    user's middleware and at most six entries longer. *)
Theorem pipeline_length (props : FloatProps) (refs : Refs) :
  length (buildMiddleware props refs)
  = (length (user_middleware props refs)
     + length (filter (λ f, feature_guard f props = true) all_features))%nat
  ∧ (length (user_middleware props refs)
     ≤ length (buildMiddleware props refs)
     ≤ length (user_middleware props refs) + 6)%nat.
Proof.
  rewrite buildMiddleware_parts. unfold geometry_part, hide_part.
  rewrite !length_app, !length_optional. unfold all_features.
  cbn.
  destruct (offset_guard props), (flip_guard props), (shift_guard props),
    (autoPlacement_guard props), (arrow_guard props), (hide_guard props);
    repeat case_decide; try discriminate; try congruence; cbn; lia.
Qed.

(** X10. With no user middleware the pipeline holds no name twice, and its
    names are a subsequence of offset, flip, shift, autoPlacement, arrow,
    hide. *)
Theorem builtin_entries_once (props : FloatProps) (refs : Refs) :
  props_middleware props = MwUndefined →
  NoDup (name <$> buildMiddleware props refs)
  ∧ sublist (name <$> buildMiddleware props refs) builtin_names.
Proof.
  intros Hmw. rewrite buildMiddleware_parts.
  unfold user_middleware, geometry_part, hide_part, optional, builtin_names.
  rewrite Hmw.
  destruct (offset_guard props), (flip_guard props), (shift_guard props),
    (autoPlacement_guard props), (arrow_guard props), (hide_guard props);
    cbn;
    (split;
     [ repeat (apply NoDup_cons; split;
               [rewrite ?elem_of_cons, elem_of_nil; intuition discriminate|]);
       apply NoDup_nil_2
     | repeat first [ apply sublist_nil | apply sublist_skip
                    | apply sublist_cons ] ]).
Qed.

Lemma builtin_entries_once_witness :
  NoDup (name <$> buildMiddleware offset_flip_props no_refs).
Proof.
  exact (proj1 (builtin_entries_once offset_flip_props no_refs eq_refl)).
Defined.

(** *** The options of flip and shift *)

Lemma obj_get_obj_set k k' v o :
  obj_get k (obj_set k' v o) = if String.eqb k k' then Some v else obj_get k o.
Proof.
  induction o as [|[k0 v0] o IH]; cbn.
  - reflexivity.
  - destruct (String.eqb k' k0) eqn:E0; cbn.
    + apply String.eqb_eq in E0. subst k0.
      destruct (String.eqb k k'); reflexivity.
    + rewrite IH. destruct (String.eqb k k') eqn:E; [|reflexivity].
      apply String.eqb_eq in E. subst k'. rewrite E0. reflexivity.
Qed.

(** A spread writes each key of its source over the base. *)
Lemma obj_get_obj_spread k src :
  NoDup src.*1 →
  ∀ base,
    obj_get k (obj_spread base src)
    = match obj_get k src with
      | Some v => Some v
      | None => obj_get k base
      end.
Proof.
  unfold obj_spread.
  induction src as [|[k1 v1] src IH]; intros Hnd base; [reflexivity|].
  apply NoDup_cons in Hnd as [Hnotin Hnd]. cbn in *.
  rewrite (IH Hnd), obj_get_obj_set.
  destruct (String.eqb k k1) eqn:E; [|reflexivity].
  apply String.eqb_eq in E. subst k1.
  destruct (obj_get k src) as [v|] eqn:Hg; [|reflexivity].
  exfalso. apply Hnotin. clear - Hg.
  induction src as [|[k2 v2] src IH]; [discriminate|]. cbn in *.
  destruct (String.eqb k k2) eqn:E.
  - apply String.eqb_eq in E. subst. left.
  - right. auto.
Qed.

(** X11. The options that [flip] and [shift] are called with: for a number
    [n] the one entry [padding: n]; for [true] the one entry
    [padding: undefined]; for an object every key of the object with the
    object's value, and [padding: undefined] besides when the object has no
    [padding] of its own. *)
Theorem padding_options_lookup (v : Value) (k : string) :
  (∀ n, v = VNum n → padding_options v = VObj [("padding", VNum n)])
  ∧ (v = VBool true → padding_options v = VObj [("padding", VUndefined)])
  ∧ (∀ o, v = VObj o → NoDup o.*1 →
       ∃ fields, padding_options v = VObj fields
         ∧ obj_get k fields
           = match obj_get k o with
             | Some x => Some x
             | None => if String.eqb k "padding" then Some VUndefined else None
             end).
Proof.
  split; [intros n ->; reflexivity|].
  split; [intros ->; reflexivity|].
  intros o -> Hnd. eexists. split; [reflexivity|].
  cbn [typeof_is typeof String.eqb Ascii.eqb Bool.eqb spread_fields].
  rewrite (obj_get_obj_spread k o Hnd). cbn.
  destruct (obj_get k o); reflexivity.
Qed.

End PipelineMore.

(** ** Rendering *)

Module RenderingFacts.
Import TransitionBridge ArrowComponent Rendering Traces Examples.

(** X14. The children go into a portal exactly when the root is mounted,
    the [portal] prop is truthy, there is a document, and its
    [querySelector] finds an element for the selector ([body] for [true]).
    Before the mount effect has run, as at the first render, they stay in
    place whatever the prop and the document, and nothing is queried or
    thrown; in place they stay, too, for the empty selector and where the
    selector finds nothing.  Mounted, with a truthy prop and no [document]
    declared at all, the read of [document] throws. *)
Theorem renderPortal_when {A : Type}
    (document : Document) (mounted : bool) (portal : PortalProp)
    (children : A) (root : Element) (props : FloatProps) :
  (renderPortal document mounted portal children = Normal (InPortal root children)
   ↔ mounted = true ∧ portal_truthy portal = true
     ∧ ∃ querySelector, document = DocumentObject querySelector
         ∧ querySelector (portal_selector portal) = Normal (Some root))
  ∧ portal_selector (PortalBool true) = "body"
  ∧ renderPortal document false portal children = Normal (InPlace children)
  ∧ renderPortal document (isMounted (initial_state props)) portal children
    = Normal (InPlace children)
  ∧ renderPortal document mounted (PortalSelector EmptyString) children
    = Normal (InPlace children)
  ∧ (∀ querySelector,
       querySelector (portal_selector portal) = Normal None →
       renderPortal (DocumentObject querySelector) mounted portal children
       = Normal (InPlace children))
  ∧ (mounted = true → portal_truthy portal = true →
     renderPortal DocumentNullish mounted portal children
     = Normal (InPlace children)
     ∧ renderPortal DocumentUndeclared mounted portal children
       = Thrown "ReferenceError: document is not defined").
Proof.
  split; [split|].
  - unfold renderPortal.
    destruct mounted, (portal_truthy portal); cbn; try discriminate.
    destruct document as [| |q]; try discriminate.
    destruct (q (portal_selector portal)) as [[r|]|] eqn:E; try discriminate.
    intros [= ->]. eauto 10.
  - intros (-> & Ht & q & -> & Hq). unfold renderPortal.
    rewrite Ht, Hq. reflexivity.
  - split; [reflexivity|]. split; [reflexivity|]. split; [reflexivity|].
    split; [|split].
    + unfold renderPortal. cbn. rewrite andb_false_r. reflexivity.
    + intros q Hq. unfold renderPortal.
      destruct (mounted && portal_truthy portal); [rewrite Hq|]; reflexivity.
    + intros -> Ht. unfold renderPortal. rewrite Ht. auto.
Qed.

(** *** The origin class *)

Lemma same_originClass_refl oc : same_originClass oc oc = true.
Proof.
  destruct oc as [|s|i f]; cbn;
    [reflexivity | apply String.eqb_refl | apply Nat.eqb_refl].
Qed.

Lemma same_flag_refl flag : same_flag flag flag = true.
Proof. destruct flag as [[]|]; reflexivity. Qed.


Lemma originClass_over_kept resolver m oc flag ps :
  same_originClass (memo_originClass m) oc = true →
  same_flag (memo_tailwindcssOriginClass m) flag = true →
  originClass_over resolver (Some m) oc flag ps = Some m.
Proof.
  intros Hoc Hflag. induction ps as [|p ps IH]; [reflexivity|].
  cbn [originClass_over]. unfold originClassValue. rewrite Hoc, Hflag. exact IH.
Qed.

(** X16. The memoized origin class does not follow the placement: while
    [originClass] and [tailwindcssOriginClass] stay the same, every render
    after the first, whatever its placement, gets the class computed for the
    placement of the first render.  It is computed anew, for the placement
    of that render, only when one of the two props has changed. *)
Theorem originClass_keeps_first_placement
    (resolver : Placement → string) (oc : OriginClassProp) (flag : option bool)
    (p : Placement) (ps : list Placement) (m : Memo) (q : Placement) :
  memo_value <$> originClass_over resolver None oc flag (p :: ps)
  = Some (originClass_of resolver oc flag p)
  ∧ (same_originClass (memo_originClass m) oc
     && same_flag (memo_tailwindcssOriginClass m) flag = false →
     memo_value (originClassValue resolver (Some m) oc flag q)
     = originClass_of resolver oc flag q).
Proof.
  split.
  - cbn [originClass_over]. rewrite originClass_over_kept;
      [reflexivity | apply same_originClass_refl | apply same_flag_refl].
  - intros H. unfold originClassValue. rewrite H. reflexivity.
Qed.

(** *** The arrow *)

Section Numbers.
Context {Num : JsNumber}.

Lemma style_dom p (cx cy offset : option number) :
  dom (style p cx cy offset) = ({["left"; "top"; "right"; "bottom"]} : gset string).
Proof.
  unfold style. rewrite ArrowFacts.staticSide_opposite.
  destruct p; cbn [computed_key default side_of opposite side_string];
    rewrite !dom_insert_L, dom_empty_L; set_solver.
Qed.

(** X17. Whatever the placement, the coordinates and the offset, the style
    of the arrow has the four keys [left], [top], [right] and [bottom] and
    no other: the computed key always names one of them. *)
Theorem arrow_style_keys (p : Placement) (cx cy offset : option number) :
  dom (style p cx cy offset) = ({["left"; "top"; "right"; "bottom"]} : gset string).
Proof. apply style_dom. Qed.

(** X18. As long as the arrow middleware has reported nothing
    ([middlewareData.arrow] absent), an arrow inside the Float gets a style
    of exactly four keys in which the side across from the placement holds
    the string of the negated stand-off ([props.offset], or 4) followed by
    [px], and each of the three other sides holds the empty string. *)
Theorem arrow_without_data_sets_static_side_only
    (p : Placement) (offset : option number) (rest : list (option ArrowState)) :
  ∃ css,
    Arrow offset (provide (provided_arrowApi p None) rest) = Normal css
    ∧ dom css = ({["left"; "top"; "right"; "bottom"]} : gset string)
    ∧ css !! side_string (opposite (side_of p))
      = Some (number_toString
                (number_negate (default (number_literal 4) offset))
              ++ "px")%string
    ∧ ∀ s : Side,
        s ≠ opposite (side_of p) → css !! side_string s = Some EmptyString.
Proof.
  eexists. split; [reflexivity|].
  cbn [provided_arrowApi arrowApi placement x y mbind option_bind].
  split; [apply style_dom|].
  unfold style, px.
  rewrite ArrowFacts.staticSide_opposite, times_minus_one.
  split.
  - destruct p; cbn [computed_key default side_of opposite side_string];
      by simplify_map_eq.
  - intros s Hs.
    destruct p, s; cbn [computed_key default side_of opposite side_string] in *;
      try congruence; by simplify_map_eq.
Qed.

(** X19. Outside a Float [Arrow] throws the error about the missing parent
    whatever its props, the fragment without a child included.  Inside a
    Float it throws exactly when [as] is the fragment and the child, or
    what the render prop returns for the placement, is not an element; every
    node it does render carries the Float's arrow ref and the style computed
    from the Float's placement and coordinates. *)
Theorem arrow_render_errors
    (props : ArrowProps) (api : ArrowState) (rest : list (option ArrowState)) :
  ArrowRender props []
  = Thrown "<Float.Arrow /> is missing a parent <Float /> component."
  ∧ (ArrowRender props (provide api rest) = Thrown fragment_error
     ↔ arrow_as props = AsFragment
       ∧ ∃ v, resolve_children props (placement api) = ChildOther v)
  ∧ (∀ msg, ArrowRender props (provide api rest) = Thrown msg →
            msg = fragment_error)
  ∧ (∀ node, ArrowRender props (provide api rest) = Normal node →
       node_ref node = arrowRef api
       ∧ node_css node
         = style (placement api) (x api) (y api) (arrow_offset props)).
Proof.
  split; [reflexivity|].
  unfold ArrowRender, resolve_children. cbn.
  destruct (arrow_as props) eqn:Has.
  - split; [split; [discriminate | intros [? _]; discriminate]|].
    split; [discriminate|]. intros node [= <-]. auto.
  - destruct (arrow_children props) as [c|f].
    + destruct c as [e|v].
      * split; [split; [discriminate | intros (_ & ? & ?); discriminate]|].
        split; [discriminate|]. intros node [= <-]. auto.
      * split; [split; eauto|]. split; [intros msg [= <-]; reflexivity|].
        discriminate.
    + destruct (f (placement api)) as [e|v].
      * split; [split; [discriminate | intros (_ & ? & ?); discriminate]|].
        split; [discriminate|]. intros node [= <-]. auto.
      * split; [split; eauto|]. split; [intros msg [= <-]; reflexivity|].
        discriminate.
  - split; [split; [discriminate | intros [? _]; discriminate]|].
    split; [discriminate|]. intros node [= <-]. auto.
Qed.

End Numbers.

(** *** The root over a series of events *)

(** X20. After any series of events the committed [show] is what the last
    [beforeEnter] or [afterLeave] among them set, and what it was before
    when there was none: renders with new props, the mount effect and the
    other callbacks in between change nothing. *)
Theorem show_is_last_commit
    (props : FloatProps) (es : list Event) (st : State) :
  show (run_events props es st).2 = default (show st) (last_commit es).
Proof.
  revert props st. induction es as [|e es IH]; intros props st; [reflexivity|].
  cbn [run_events last_commit].
  destruct (step props e st) as [props' st'] eqn:Hstep.
  rewrite IH. destruct (last_commit es); [reflexivity|]. cbn.
  destruct e as [p' | | []]; cbn in Hstep; inversion Hstep; reflexivity.
Qed.

(** X21. Starting from the first render, the transition primitive is told
    [show: false], whatever the props request, for as long as the mount
    effect has not run; once it has run the root stays mounted and the
    primitive is told the [show] of the current props. *)
Theorem transition_show_after_mount (props : FloatProps) (es : list Event) :
  isMounted (run_events props es (initial_state props)).2 = existsb mounts es
  ∧ transition_show
      (transitionProps (run_events props es (initial_state props)).1
         (run_events props es (initial_state props)).2)
    = if existsb mounts es
      then props_show (run_events props es (initial_state props)).1
      else Some false.
Proof.
  assert (Hm : ∀ es p st,
             isMounted (run_events p es st).2 = isMounted st || existsb mounts es).
  { clear. induction es as [|e es IH]; intros p st.
    - cbn. by rewrite orb_false_r.
    - cbn [run_events existsb].
      destruct (step p e st) as [p' st'] eqn:Hstep. rewrite IH.
      destruct e as [q | | []]; cbn in Hstep; inversion Hstep; subst; cbn;
        try reflexivity.
      by rewrite orb_true_r. }
  split; [rewrite Hm; reflexivity|].
  unfold transitionProps. cbn [transition_show]. rewrite Hm. reflexivity.
Qed.

End RenderingFacts.
